(** * twitterscraper.query: pagination, retry and fan-out engine

    A shallow embedding of [twitterscraper/query.py] and the properties of
    its retry loop, its two paginators and its date-range partitioner.

    Python values that flow through the code untyped (cursors, decoded
    JSON, the [limit] argument) are kept as a small universe [pyval];
    exceptions are values of [exn]; network I/O and logging are threaded
    through an explicit state that records every request and every log
    call in order. *)

From Stdlib Require Import ZArith List String Ascii Bool Lia QArith Qround.
From Stdlib Require Import Permutation.
Import ListNotations.
Local Open Scope Z_scope.

(** ** Python values and exceptions *)

(** The exception classes the module can meet.  [JSONDecodeError] is a
    subclass of [ValueError]; [KeyboardInterrupt] derives from
    [BaseException] only; [OtherError] stands for any other class. *)
Inductive exn : Type :=
| RequestException
| JSONDecodeError
| ValueError
| KeyError (key : string)
| TypeError
| IndexError
| UnboundLocalError (var : string)
| ZeroDivisionError
| KeyboardInterrupt
| OtherError (name : string).

Definition is_RequestException (e : exn) : bool :=
  match e with RequestException => true | _ => false end.

Definition is_JSONDecodeError (e : exn) : bool :=
  match e with JSONDecodeError => true | _ => false end.

(** [except ValueError] also catches the subclass [JSONDecodeError]. *)
Definition is_ValueError (e : exn) : bool :=
  match e with ValueError | JSONDecodeError => true | _ => false end.

Definition is_KeyboardInterrupt (e : exn) : bool :=
  match e with KeyboardInterrupt => true | _ => false end.

(** Values: [None], booleans, integers, strings, lists and dicts with
    string keys (what [json.loads] builds; JSON numbers are restricted to
    integers).  A dict is an association list read from the front. *)
#[local] Unset Elimination Schemes.
Inductive pyval : Type :=
| PNone
| PBool (b : bool)
| PInt (z : Z)
| PStr (s : string)
| PList (l : list pyval)
| PDict (d : list (string * pyval)).
#[local] Set Elimination Schemes.

(** [x is None] *)
Definition is_None (v : pyval) : bool :=
  match v with PNone => true | _ => false end.

(** Truth value of [v] as tested by [if v:], [v and ...], [v or ...]. *)
Definition truthy (v : pyval) : bool :=
  match v with
  | PNone => false
  | PBool b => b
  | PInt z => negb (z =? 0)
  | PStr s => negb (String.eqb s EmptyString)
  | PList l => match l with [] => false | _ => true end
  | PDict d => match d with [] => false | _ => true end
  end.

(** [a or b] *)
Definition py_or (a b : pyval) : pyval := if truthy a then a else b.

Fixpoint dict_get (d : list (string * pyval)) (k : string) : option pyval :=
  match d with
  | [] => None
  | (k', v) :: d' => if String.eqb k k' then Some v else dict_get d' k
  end.

(** [v[k]] for a string key [k]. *)
Definition subscript (v : pyval) (k : string) : exn + pyval :=
  match v with
  | PDict d => match dict_get d k with
               | Some x => inr x
               | None => inl (KeyError k)
               end
  | _ => inl TypeError
  end.

(** [int(v)], given the builtin's reading of strings ([None] is
    [ValueError]). *)
Definition py_int (int_of_str : string -> option Z) (v : pyval) : exn + Z :=
  match v with
  | PInt z => inr z
  | PBool b => inr (if b then 1 else 0)
  | PStr s => match int_of_str s with
              | Some z => inr z
              | None => inl ValueError
              end
  | _ => inl TypeError
  end.

(** [range(n)] *)
Definition py_range (n : Z) : list Z := map Z.of_nat (seq 0 (Z.to_nat n)).

(** [len(l)] *)
Definition len {A : Type} (l : list A) : Z := Z.of_nat (List.length l).

(** [s.replace(c, by)] for a one-character pattern. *)
Fixpoint replace (c : ascii) (by_ : string) (s : string) : string :=
  match s with
  | EmptyString => EmptyString
  | String a s' =>
      if Ascii.eqb a c then String.append by_ (replace c by_ s')
      else String a (replace c by_ s')
  end.

(** ** URLs

    The four URL templates, kept as the template applied to its fields. *)
Inductive url : Type :=
| SEARCH_INIT_URL (query lang : string)
| SEARCH_RELOAD_URL (pos : pyval) (query lang : string)
| USER_INIT_URL (user : string)
| USER_RELOAD_URL (user : string) (pos : pyval).

Definition get_search_url (query lang : string) (pos : pyval) : url :=
  if truthy pos then SEARCH_RELOAD_URL pos query lang
  else SEARCH_INIT_URL query lang.

Definition get_user_url (user : string) (pos : pyval) : url :=
  if truthy pos then USER_RELOAD_URL user pos
  else USER_INIT_URL user.

Definition get_url (query lang : string) (pos : pyval) (from_user : bool) : url :=
  if from_user then get_user_url query pos
  else get_search_url query lang pos.

(** ** Observable events

    Log messages are kept as the format string applied to its arguments. *)
Inductive message : Type :=
| msg_querying_profile (user : string)
| msg_success
| msg_failure
| msg_interrupted
| msg_querying_user_tweets (user : string)
| msg_got_from (n : Z) (user : string)
| msg_querying (query : string)
| msg_got_for (n : Z) (query : string)
| msg_queries (queries : list string)
| msg_got_new (total new : Z)
| msg_retry (left : Z)
| msg_no_success (retry : Z)
| msg_no_success_user (retry : Z).

Inductive event : Type :=
| Get (u : url)              (* requests.get(url, headers=HEADER) *)
| LogInfo (m : message)      (* logger.info *)
| LogError (m : message)     (* logger.error *)
| LogException (e : exn).    (* logger.exception *)

Definition is_Get (ev : event) : bool :=
  match ev with Get _ => true | _ => false end.

Definition is_LogException (ev : event) : bool :=
  match ev with LogException _ => true | _ => false end.

(** ** Collaborators

    What the module calls but does not define: the HTTP transport, the
    JSON decoder, the builtin [int] on strings, and the two page parsers
    of [twitterscraper.tweet] and [twitterscraper.user].  A call either
    raises ([inl]) or returns ([inr]); [json_loads] answering [None] is
    [json.loads] raising [JSONDecodeError].  A date is its day number and
    [date_str] prints it.  The worker pool is an oracle too:
    [imap_unordered poolsize lang limit queries] answers the result lists
    that [pool.imap_unordered(job, queries)] delivers, in the order they
    complete, and the exception, if any, that ends the iteration. *)
Class Upstream : Type := {
  World : Type;
  requests_get : url -> World -> (exn + string) * World;
  json_loads : string -> option pyval;
  int_of_str : string -> option Z;
  Tweet : Type;
  tweet_id : Tweet -> pyval;
  tweet_timestamp : Tweet -> Z;
  from_html : pyval -> exn + list Tweet;
  User : Type;
  user_from_html : pyval -> exn + option User;
  date_str : Z -> string;
  imap_unordered :
    Z -> string -> option Z -> list string -> World ->
    (list (list Tweet) * option exn) * World
}.

Section Engine.
Context {U : Upstream}.

(** The state threaded through the code: the world the transport talks
    to, and the requests and log calls made so far, oldest first. *)
Record St : Type := mkSt { world : World; trace : list event }.

Definition log (ev : event) (s : St) : St :=
  mkSt (world s) (trace s ++ [ev]).

(** [requests.get(url, headers=HEADER)] followed by [.text] *)
Definition fetch (u : url) (s : St) : (exn + string) * St :=
  let (r, w) := requests_get u (world s) in
  (r, mkSt w (trace s ++ [Get u])).

(** ** [_request_page] *)

(** How one pass through the body of the [for] loop ends; [continue]
    and the [except] clauses leave the local [response_json] ([None]
    while unbound) to the next pass. *)
Inductive attempt_outcome : Type :=
| Returned (tweets : list Tweet) (new_pos : pyval)
| Continued (pos : pyval) (response_json : option pyval)
| Handled (response_json : option pyval)
| Propagated (e : exn).

(** The two [except] clauses of the outer [try] (lines 217-220). *)
Definition outer_except (e : exn) (response_json : option pyval) (s : St)
    : attempt_outcome * St :=
  if is_RequestException e
  then (Handled response_json, log (LogException e) s)
  else if is_JSONDecodeError e
  then (Handled response_json, log (LogException e) s)
  else (Propagated e, s).

(** Lines 200-209: [response_json] after the [if pos is None]
    statement, with [html] or the exception that leaves the statement. *)
Definition unwrap (pos : pyval) (response_json : option pyval) (text : string)
    (s : St) : (option pyval * (exn + pyval)) * St :=
  if is_None pos then
    ((Some PNone, inr (py_or (PStr text) (PStr ""))), s)
  else
    match json_loads text with
    | None =>
        ((response_json, inr (PStr "")), log (LogException JSONDecodeError) s)
    | Some v =>
        match subscript v "items_html" with
        | inl e =>
            if is_ValueError e
            then ((Some v, inr (PStr "")), log (LogException e) s)
            else ((Some v, inl e), s)
        | inr h => ((Some v, inr (py_or h (PStr ""))), s)
        end
    end.

(** Lines 211-215. *)
Definition parse (response_json : option pyval) (html : pyval) (s : St)
    : attempt_outcome * St :=
  match from_html html with
  | inl e => outer_except e response_json s
  | inr [] =>
      match response_json with
      | None => outer_except (UnboundLocalError "response_json") None s
      | Some rj =>
          if truthy rj then
            match subscript rj "min_position" with
            | inl e => outer_except e response_json s
            | inr m => (Continued m response_json, s)
            end
          else (Continued PNone response_json, s)
      end
  | inr (t :: ts) => (Returned (t :: ts) (tweet_id (last ts t)), s)
  end.

(** Lines 197-220: one pass through the loop body. *)
Definition attempt (query lang : string) (pos : pyval)
    (response_json : option pyval) (from_user : bool) (s : St)
    : attempt_outcome * St :=
  match fetch (get_url query lang pos from_user) s with
  | (inl e, s1) => outer_except e response_json s1
  | (inr text, s1) =>
      match unwrap pos response_json text s1 with
      | ((rj, inl e), s2) => outer_except e rj s2
      | ((rj, inr html), s2) => parse rj html s2
      end
  end.

(** The [for i in range(retry)] loop, by recursion on the indices left. *)
Fixpoint _request_page_loop (retry : Z) (indices : list Z)
    (query lang : string) (pos : pyval) (response_json : option pyval)
    (from_user : bool) (s : St) : (exn + (list Tweet * pyval)) * St :=
  match indices with
  | [] => (inr ([], PNone), log (LogError (msg_no_success retry)) s)
  | i :: indices' =>
      match attempt query lang pos response_json from_user s with
      | (Returned tweets new_pos, s1) => (inr (tweets, new_pos), s1)
      | (Continued pos' rj', s1) =>
          _request_page_loop retry indices' query lang pos' rj' from_user s1
      | (Handled rj', s1) =>
          _request_page_loop retry indices' query lang pos rj' from_user
            (log (LogInfo (msg_retry (retry - (i + 1)))) s1)
      | (Propagated e, s1) => (inl e, s1)
      end
  end.

Definition _request_page (query lang : string) (pos : pyval) (retry : Z)
    (from_user : bool) (s : St) : (exn + (list Tweet * pyval)) * St :=
  _request_page_loop retry (py_range retry) query lang pos None from_user s.

(** ** [query_tweets]

    The [while True] loops take a bound [fuel] on the number of
    iterations; a run that needs more answers [None] for its final
    state. *)

(** [limit and n >= limit], for [limit] either [None] or an integer. *)
Definition limit_reached (limit : option Z) (n : Z) : bool :=
  match limit with
  | Some l => negb (l =? 0) && (n >=? l)
  | None => false
  end.

(** The [except KeyboardInterrupt] / [except BaseException] pair that
    closes each public operation. *)
Definition except_all (e : exn) (s : St) : St :=
  if is_KeyboardInterrupt e then log (LogInfo msg_interrupted) s
  else log (LogException e) s.

(** Lines 107-125.  The generator is run to exhaustion: the result is
    the sequence of pairs it yields, in order, and the state in which it
    finishes. *)
Fixpoint query_tweets_loop (fuel : nat) (query lang : string) (pos : pyval)
    (limit : option Z) (num_tweets : Z) (s : St)
    : list (Tweet * pyval) * option St :=
  match fuel with
  | O => ([], None)
  | S fuel' =>
      match _request_page query lang pos 10 false s with
      | (inl e, s1) =>
          ([], Some (log (LogInfo (msg_got_for num_tweets query))
                       (except_all e s1)))
      | (inr (new_tweets, new_pos), s1) =>
          if len new_tweets =? 0 then
            ([], Some (log (LogInfo (msg_got_for num_tweets query)) s1))
          else
            let yielded := map (fun t => (t, pos)) new_tweets in
            let num_tweets' := num_tweets + len new_tweets in
            if limit_reached limit num_tweets' then
              (yielded,
               Some (log (LogInfo (msg_got_for num_tweets' query)) s1))
            else
              let (rest, final) :=
                query_tweets_loop fuel' query lang new_pos limit
                  num_tweets' s1 in
              (yielded ++ rest, final)
      end
  end.

(** Line 105. *)
Definition quote_query (query : string) : string :=
  replace ":" "%3A" (replace "#" "%23" (replace " " "%20" query)).

Definition query_tweets (fuel : nat) (query lang : string) (pos : pyval)
    (limit : option Z) (s : St) : list (Tweet * pyval) * option St :=
  let s := log (LogInfo (msg_querying query)) s in
  let query := quote_query query in
  query_tweets_loop fuel query lang pos limit 0 s.


(** ** [query_user_tweets] *)

(** [tweets[-1]] *)
Definition last_item (tweets : list Tweet) : exn + Tweet :=
  match tweets with
  | [] => inl IndexError
  | t :: ts => inr (last ts t)
  end.

(** Lines 79-81: the [for tweet in new_tweets] loop, appending in place;
    the list is returned as it stands also when [tweets[-1]] raises. *)
Fixpoint tail_merge (tweets new_tweets : list Tweet)
    : option exn * list Tweet :=
  match new_tweets with
  | [] => (None, tweets)
  | tweet :: rest =>
      match last_item tweets with
      | inl e => (Some e, tweets)
      | inr l =>
          if tweet_timestamp l >? tweet_timestamp tweet
          then tail_merge (tweets ++ [tweet]) rest
          else tail_merge tweets rest
      end
  end.

(** Line 78: [pos and int(new_pos) > int(pos)], as a truth value. *)
Definition reversed (pos new_pos : pyval) : exn + bool :=
  if truthy pos then
    match py_int int_of_str new_pos with
    | inl e => inl e
    | inr a =>
        match py_int int_of_str pos with
        | inl e => inl e
        | inr b => inr (a >? b)
        end
    end
  else inr false.

(** Lines 87-92: what runs once the [while] loop is left. *)
Definition user_tweets_done (user : string) (tweets : list Tweet) (s : St)
    : list Tweet * St :=
  (tweets, log (LogInfo (msg_got_from (len tweets) user)) s).

(** Lines 76-86. *)
Fixpoint query_user_tweets_loop (fuel : nat) (user : string)
    (limit : option Z) (pos : pyval) (tweets : list Tweet) (s : St)
    : option (list Tweet * St) :=
  match fuel with
  | O => None
  | S fuel' =>
      match _request_page user "" pos 10 true s with
      | (inl e, s1) => Some (user_tweets_done user tweets (except_all e s1))
      | (inr (new_tweets, new_pos), s1) =>
          match reversed pos new_pos with
          | inl e => Some (user_tweets_done user tweets (except_all e s1))
          | inr true =>
              match tail_merge tweets new_tweets with
              | (Some e, tweets') =>
                  Some (user_tweets_done user tweets' (except_all e s1))
              | (None, tweets') => Some (user_tweets_done user tweets' s1)
              end
          | inr false =>
              let tweets' := tweets ++ new_tweets in
              if limit_reached limit (len tweets') then
                Some (user_tweets_done user tweets' s1)
              else
                query_user_tweets_loop fuel' user limit new_pos tweets' s1
          end
      end
  end.

Definition query_user_tweets (fuel : nat) (user : string) (limit : option Z)
    (s : St) : option (list Tweet * St) :=
  query_user_tweets_loop fuel user limit PNone []
    (log (LogInfo (msg_querying_user_tweets user)) s).

(** ** [_request_user] and [query_user] *)

Fixpoint _request_user_loop (retry : Z) (indices : list Z) (u : url) (s : St)
    : (exn + option User) * St :=
  match indices with
  | [] => (inr None, log (LogError (msg_no_success_user retry)) s)
  | i :: indices' =>
      let handled e s1 :=
        _request_user_loop retry indices' u
          (log (LogInfo (msg_retry (retry - (i + 1))))
             (log (LogException e) s1)) in
      match fetch u s with
      | (inl e, s1) =>
          if is_RequestException e then handled e s1 else (inl e, s1)
      | (inr text, s1) =>
          match user_from_html (py_or (PStr text) (PStr "")) with
          | inl e =>
              if is_RequestException e then handled e s1 else (inl e, s1)
          | inr user_info => (inr user_info, s1)
          end
      end
  end.

Definition _request_user (u : url) (retry : Z) (s : St)
    : (exn + option User) * St :=
  _request_user_loop retry (py_range retry) u s.

(** A function that falls off its end returns [None]. *)
Definition query_user (user : string) (s : St) : option User * St :=
  let s := log (LogInfo (msg_querying_profile user)) s in
  match _request_user (get_user_url user PNone) 10 s with
  | (inr user_info, s1) =>
      (user_info,
       log (LogInfo (match user_info with
                     | Some _ => msg_success
                     | None => msg_failure
                     end)) s1)
  | (inl e, s1) => (None, except_all e s1)
  end.

(** ** [query_tweets_parallel] *)

(** [l[:-1] + [x]] *)
Definition set_last {A : Type} (l : list A) (x : A) : list A :=
  removelast l ++ [x].

(** [np.linspace(start, stop, num)], with the arithmetic of binary64
    floats replaced by exact rationals. *)
Definition linspace (start stop : Q) (num : Z) : exn + list Q :=
  if num <? 0 then inl ValueError
  else
    let div := num - 1 in
    let delta := (stop - start)%Q in
    let y := map inject_Z (py_range num) in
    let y :=
      if 0 <? div then
        let step := (delta / inject_Z div)%Q in
        if Qeq_bool step 0
        then map (fun v => (v / inject_Z div * delta)%Q) y
        else map (fun v => (v * step)%Q) y
      else map (fun v => (v * delta)%Q) y in
    let y := map (fun v => (v + start)%Q) y in
    inr (if 1 <? num then set_last y stop else y).

(** [date + dt.timedelta(days=elem)]: a date moves by the whole days of
    the interval. *)
Definition date_plus_days (date : Z) (elem : Q) : Z := date + Qfloor elem.

(** Lines 131-135: the clamped pool size and the partition boundaries. *)
Definition clamp_poolsize (poolsize no_days : Z) : Z :=
  if poolsize >? no_days then no_days else poolsize.

Definition dateranges (poolsize begindate enddate : Z) : exn + list Z :=
  let no_days := enddate - begindate in
  let poolsize := clamp_poolsize poolsize no_days in
  match linspace 0 (inject_Z no_days) (poolsize + 1) with
  | inl e => inl e
  | inr elems => inr (map (date_plus_days begindate) elems)
  end.

(** [zip(dateranges[:-1], dateranges[1:])] *)
Definition date_pairs (ranges : list Z) : list (Z * Z) :=
  combine (removelast ranges) (tl ranges).

(** Lines 137-138. *)
Definition sub_queries (query : string) (ranges : list Z) : list string :=
  map (fun '(since, until) =>
         (query ++ " since:" ++ date_str since
                ++ " until:" ++ date_str until)%string)
      (date_pairs ranges).

(** Line 136. *)
Definition limit_per_pool (limit : option Z) (poolsize : Z)
    : exn + option Z :=
  match limit with
  | Some l =>
      if negb (l =? 0) then
        if poolsize =? 0 then inl ZeroDivisionError
        else inr (Some (l / poolsize + 1))
      else inr None
  | None => inr None
  end.

(** [Pool(processes)] refuses fewer than one process. *)
Definition Pool (processes : Z) : exn + Z :=
  if processes <? 1 then inl ValueError else inr processes.

(** Lines 145-147. *)
Fixpoint extend_all (tweets : list Tweet) (results : list (list Tweet))
    (s : St) : list Tweet * St :=
  match results with
  | [] => (tweets, s)
  | new_tweets :: results' =>
      let tweets' := tweets ++ new_tweets in
      extend_all tweets' results'
        (log (LogInfo (msg_got_new (len tweets') (len new_tweets))) s)
  end.

(** Lines 150-152: [pool.close(); pool.join()] need [pool] bound. *)
Definition finally_close (pool : option Z)
    (r : (exn + list Tweet) * St) : (exn + list Tweet) * St :=
  match pool with
  | None => (inl (UnboundLocalError "pool"), snd r)
  | Some _ => r
  end.

(** Lines 140-154: the [try] statement and the [return]. *)
Definition run_pool (lang : string) (limit : option Z) (poolsize : Z)
    (queries : list string) (s : St) : (exn + list Tweet) * St :=
  match Pool poolsize with
  | inl e =>
      finally_close None
        (if is_KeyboardInterrupt e
         then (inr [], log (LogInfo msg_interrupted) s)
         else (inl e, s))
  | inr pool =>
      let s := log (LogInfo (msg_queries queries)) s in
      let '(results, interrupted, w) :=
        imap_unordered pool lang limit queries (world s) in
      let (tweets, s) := extend_all [] results (mkSt w (trace s)) in
      finally_close (Some pool)
        match interrupted with
        | None => (inr tweets, s)
        | Some e =>
            if is_KeyboardInterrupt e
            then (inr tweets, log (LogInfo msg_interrupted) s)
            else (inl e, s)
        end
  end.

Definition query_tweets_parallel (query lang : string) (limit : option Z)
    (poolsize begindate enddate : Z) (s : St) : (exn + list Tweet) * St :=
  let no_days := enddate - begindate in
  let poolsize' := clamp_poolsize poolsize no_days in
  match dateranges poolsize begindate enddate with
  | inl e => (inl e, s)
  | inr ranges =>
      match limit_per_pool limit poolsize' with
      | inl e => (inl e, s)
      | inr limit' =>
          run_pool lang limit' poolsize' (sub_queries query ranges) s
      end
  end.

End Engine.

(** ** Vocabulary of the statements *)

Section Vocabulary.
Context {U : Upstream}.

(** The events of one attempt of [_request_page] whose fetch raised [e]
    at index [i]. *)
Definition failed_attempt (u : url) (retry : Z) (ie : Z * exn)
    : list event :=
  [Get u; LogException (snd ie); LogInfo (msg_retry (retry - (fst ie + 1)))].

Definition count_Get (s : St) : nat :=
  List.length (filter is_Get (trace s)).

Definition count_LogException (s : St) : nat :=
  List.length (filter is_LogException (trace s)).

(** A body [text], fetched for cursor [pos], that holds no records and
    whose envelope (on a continuation request) carries both fields:
    [stall_next] is the cursor the envelope reports, [None] on a first
    page; [stall_json] is the value left in [response_json]. *)
Definition stall_next (pos : pyval) (text : string) : option pyval :=
  if is_None pos then
    match from_html (py_or (PStr text) (PStr "")) with
    | inr [] => Some PNone
    | _ => None
    end
  else
    match json_loads text with
    | Some (PDict d) =>
        match dict_get d "items_html", dict_get d "min_position" with
        | Some h, Some m =>
            match from_html (py_or h (PStr "")) with
            | inr [] => Some m
            | _ => None
            end
        | _, _ => None
        end
    | _ => None
    end.

Definition stall_json (pos : pyval) (text : string) : option pyval :=
  if is_None pos then Some PNone else json_loads text.

(** Successive calls of [_request_page] as the search paginator makes
    them: [walk k query lang pos s] is the [k] non-empty pages met from
    cursor [pos] in state [s], each with the cursor it was requested
    at, and the cursor and state after the last. *)
Fixpoint walk (k : nat) (query lang : string) (pos : pyval) (s : St)
    : option (list (pyval * list Tweet) * (pyval * St)) :=
  match k with
  | O => Some ([], (pos, s))
  | S k' =>
      match _request_page query lang pos 10 false s with
      | (inr (t :: ts, new_pos), s1) =>
          match walk k' query lang new_pos s1 with
          | Some (ps, final) => Some ((pos, t :: ts) :: ps, final)
          | None => None
          end
      | _ => None
      end
  end.

(** The pairs a sequence of pages gives rise to: every record with the
    cursor its page was requested at. *)
Definition paired (ps : list (pyval * list Tweet)) : list (Tweet * pyval) :=
  flat_map (fun p => map (fun t => (t, fst p)) (snd p)) ps.

Definition records (ps : list (pyval * list Tweet)) : list Tweet :=
  List.concat (map snd ps).

(** [tweets[-1].id] of a page, [pos] for an empty one. *)
Definition cursor_after (pos : pyval) (tweets : list Tweet) : pyval :=
  match tweets with
  | [] => pos
  | t :: ts => tweet_id (last ts t)
  end.

(** Page [i+1] was requested at the identifier of the last record of
    page [i], the first at [pos]. *)
Fixpoint cursors_advance (pos : pyval) (ps : list (pyval * list Tweet))
    : Prop :=
  match ps with
  | [] => True
  | p :: ps' => fst p = pos /\ cursors_advance (cursor_after pos (snd p)) ps'
  end.

(** The limit test fails after each of the pages [ps], counted from
    [num]. *)
Fixpoint never_reached (limit : option Z) (num : Z)
    (ps : list (pyval * list Tweet)) : bool :=
  match ps with
  | [] => true
  | p :: ps' =>
      negb (limit_reached limit (num + len (snd p)))
      && never_reached limit (num + len (snd p)) ps'
  end.

(** The same for the user timeline: [k] pages, empty or not, none of
    which trips the cursor comparison of line 78. *)
Fixpoint user_walk (k : nat) (user : string) (pos : pyval) (s : St)
    : option (list (pyval * list Tweet) * (pyval * St)) :=
  match k with
  | O => Some ([], (pos, s))
  | S k' =>
      match _request_page user "" pos 10 true s with
      | (inr (new_tweets, new_pos), s1) =>
          match reversed pos new_pos with
          | inr false =>
              match user_walk k' user new_pos s1 with
              | Some (ps, final) => Some ((pos, new_tweets) :: ps, final)
              | None => None
              end
          | _ => None
          end
      | _ => None
      end
  end.

(** Timestamps strictly decrease along [l], starting below [ts]. *)
Fixpoint older_chain (ts : Z) (l : list Tweet) : Prop :=
  match l with
  | [] => True
  | t :: l' => tweet_timestamp t < ts /\ older_chain (tweet_timestamp t) l'
  end.

(** [l1] is [l2] with some elements left out. *)
Inductive subseq {A : Type} : list A -> list A -> Prop :=
| subseq_nil : subseq [] []
| subseq_skip x l1 l2 : subseq l1 l2 -> subseq l1 (x :: l2)
| subseq_take x l1 l2 : subseq l1 l2 -> subseq (x :: l1) (x :: l2).

(** [c in s] for a character [c]. *)
Fixpoint contains_char (c : ascii) (s : string) : bool :=
  match s with
  | EmptyString => false
  | String a s' => Ascii.eqb a c || contains_char c s'
  end.

(** Every request among [events] is for [u]. *)
Definition requests_only (u : url) (events : list event) : Prop :=
  Forall (fun ev => forall u', ev = Get u' -> u' = u) events.

End Vocabulary.

(** ** Test doubles

    Small upstreams on which the statements below are run: a stateless
    server answers each URL with a named body; the decoders know the
    bodies by name. *)
Module Example.

Record tweet : Type := mk_tweet { t_id : string; t_time : Z }.

Fixpoint digits (s : string) (acc : Z) : option Z :=
  match s with
  | EmptyString => Some acc
  | String c s' =>
      let n := Z.of_N (N_of_ascii c) - 48 in
      if (0 <=? n) && (n <=? 9) then digits s' (10 * acc + n) else None
  end.

(** Decimal numerals only. *)
Definition decimal (s : string) : option Z :=
  match s with
  | EmptyString => None
  | _ => digits s 0
  end.

Definition envelope (items min_position : string) : pyval :=
  PDict [("items_html"%string, PStr items);
         ("min_position"%string, PStr min_position)].

(** The bodies that decode as JSON; any other body is not JSON. *)
Definition decode (text : string) : option pyval :=
  if String.eqb text "stalled" then Some (envelope "" "10")
  else if String.eqb text "after-20" then Some (envelope "items-after-20" "10")
  else if String.eqb text "after-100" then Some (envelope "items-after-100" "150")
  else if String.eqb text "after-150" then Some (envelope "items-after-150" "200")
  else None.

(** The bodies that hold records; any other text holds none. *)
Definition parse_html (html : pyval) : exn + list tweet :=
  match html with
  | PStr body =>
      if String.eqb body "first"
      then inr [mk_tweet "30" 300; mk_tweet "20" 200]
      else if String.eqb body "items-after-20"
      then inr [mk_tweet "15" 150; mk_tweet "10" 100]
      else if String.eqb body "user-first"
      then inr [mk_tweet "100" 50]
      else if String.eqb body "items-after-100"
      then inr [mk_tweet "160" 70; mk_tweet "150" 40]
      else if String.eqb body "items-after-150"
      then inr [mk_tweet "200" 30]
      else inr []
  | _ => inl TypeError
  end.

Definition serve (server : url -> exn + string) : Upstream := {|
  World := unit;
  requests_get := fun u w => (server u, w);
  json_loads := decode;
  int_of_str := decimal;
  Tweet := tweet;
  tweet_id := fun t => PStr (t_id t);
  tweet_timestamp := t_time;
  from_html := parse_html;
  User := string;
  user_from_html := fun _ => inr None;
  date_str := fun _ => EmptyString;
  imap_unordered := fun _ _ _ _ w => (([], None), w)
|}.

Definition start (server : url -> exn + string) : @St (serve server) :=
  @mkSt (serve server) tt [].

(** The network is down. *)
Definition down (_ : url) : exn + string := inl RequestException.

(** Every answer is the same empty envelope. *)
Definition idle (_ : url) : exn + string := inr "stalled"%string.

(** Every answer is a text that is not JSON. *)
Definition garbled (_ : url) : exn + string := inr "<html>"%string.

(** Two pages of two records, cursors 20 then 10, then nothing. *)
Definition archive (u : url) : exn + string :=
  let reload pos :=
    match pos with
    | PStr p => if String.eqb p "20" then "after-20"%string
                else "stalled"%string
    | _ => "stalled"%string
    end in
  match u with
  | SEARCH_INIT_URL _ _ | USER_INIT_URL _ => inr "first"%string
  | SEARCH_RELOAD_URL pos _ _ | USER_RELOAD_URL _ pos => inr (reload pos)
  end.

(** A timeline whose pages end at identifiers 100, 150, 200. *)
Definition rising (u : url) : exn + string :=
  match u with
  | USER_INIT_URL _ => inr "user-first"%string
  | USER_RELOAD_URL _ (PStr p) =>
      if String.eqb p "100" then inr "after-100"%string
      else if String.eqb p "150" then inr "after-150"%string
      else inr "stalled"%string
  | _ => inr "stalled"%string
  end.

(** A first page, then the user interrupts the next request. *)
Definition interrupted (u : url) : exn + string :=
  match u with
  | SEARCH_INIT_URL _ _ | USER_INIT_URL _ => inr "first"%string
  | _ => inl KeyboardInterrupt
  end.

(** A well-formed empty envelope at cursor 20, then bodies that are not
    JSON. *)
Definition decaying (u : url) : exn + string :=
  match u with
  | SEARCH_RELOAD_URL (PStr p) _ _ =>
      if String.eqb p "20" then inr "stalled"%string else inr "<html>"%string
  | _ => inr "<html>"%string
  end.

End Example.

(** * Properties *)

(** ** The retry loop *)

Section RetryLoop.
Context {U : Upstream}.

Lemma fetch_returns (u : url) (s : St) (text : string) (w' : World) :
  requests_get u (world s) = (inr text, w') ->
  fetch u s = (inr text, mkSt w' (trace s ++ [Get u])).
Proof. unfold fetch; intros ->; reflexivity. Qed.

Lemma fetch_raises (u : url) (s : St) (e : exn) (w' : World) :
  requests_get u (world s) = (inl e, w') ->
  fetch u s = (inl e, mkSt w' (trace s ++ [Get u])).
Proof. unfold fetch; intros ->; reflexivity. Qed.

Lemma count_Get_app (s : St) (l : list event) (w : World) :
  count_Get (mkSt w (trace s ++ l)) =
  (count_Get s + List.length (filter is_Get l))%nat.
Proof.
  unfold count_Get; simpl. now rewrite filter_app, length_app.
Qed.

(** When every fetch raises a transport failure, the loop runs through
    all its indices. *)
Lemma request_page_loop_down (retry : Z) (query lang : string) (pos : pyval)
    (from_user : bool) :
  (forall u w, exists e w',
      requests_get u w = (inl e, w') /\ is_RequestException e = true) ->
  forall indices rj s, exists s' es,
    _request_page_loop retry indices query lang pos rj from_user s
      = (inr ([], PNone), s')
    /\ List.length es = List.length indices
    /\ Forall (fun e => is_RequestException e = true) es
    /\ trace s' =
       trace s
       ++ flat_map (failed_attempt (get_url query lang pos from_user) retry)
                   (combine indices es)
       ++ [LogError (msg_no_success retry)].
Proof.
  intros Hdown indices.
  induction indices as [|i indices IH]; intros rj s.
  - exists (log (LogError (msg_no_success retry)) s), [].
    repeat split; auto.
  - destruct (Hdown (get_url query lang pos from_user) (world s))
      as (e & w' & Hget & He).
    simpl. unfold attempt. rewrite (fetch_raises _ _ _ _ Hget).
    unfold outer_except. rewrite He.
    destruct (IH rj
      (log (LogInfo (msg_retry (retry - (i + 1))))
         (log (LogException e)
            (mkSt w' (trace s ++ [Get (get_url query lang pos from_user)])))))
      as (s' & es & Hrun & Hlen & Hall & Htrace).
    exists s', (e :: es). repeat split.
    + exact Hrun.
    + simpl; now rewrite Hlen.
    + now constructor.
    + rewrite Htrace. simpl. rewrite <- !app_assoc. reflexivity.
Qed.

Lemma filter_Get_failed (u : url) (retry : Z) (l : list (Z * exn)) :
  List.length (filter is_Get (flat_map (failed_attempt u retry) l))
  = List.length l.
Proof.
  induction l as [|ie l IH]; simpl; [reflexivity | now rewrite IH].
Qed.

Lemma filter_LogException_failed (u : url) (retry : Z) (l : list (Z * exn)) :
  List.length (filter is_LogException (flat_map (failed_attempt u retry) l))
  = List.length l.
Proof.
  induction l as [|ie l IH]; simpl; [reflexivity | now rewrite IH].
Qed.

Lemma length_py_range (n : Z) : List.length (py_range n) = Z.to_nat n.
Proof. unfold py_range. now rewrite length_map, length_seq. Qed.

(** C2.  For every retry budget [retry >= 1], when every fetch raises a
    transport failure, [_request_page] returns [([], None)] after exactly
    [retry] requests, all for the URL of the cursor it was given; each
    failure is logged, followed by the retry countdown, and the last
    event is the error naming [retry]. *)
Theorem request_page_transport_failures (query lang : string) (pos : pyval)
    (retry : Z) (from_user : bool) (s : St) :
  1 <= retry ->
  (forall u w, exists e w',
      requests_get u w = (inl e, w') /\ is_RequestException e = true) ->
  exists s' es,
    _request_page query lang pos retry from_user s = (inr ([], PNone), s')
    /\ List.length es = Z.to_nat retry
    /\ Forall (fun e => is_RequestException e = true) es
    /\ trace s' =
       trace s
       ++ flat_map (failed_attempt (get_url query lang pos from_user) retry)
                   (combine (py_range retry) es)
       ++ [LogError (msg_no_success retry)]
    /\ Z.of_nat (count_Get s') = Z.of_nat (count_Get s) + retry
    /\ Z.of_nat (count_LogException s')
       = Z.of_nat (count_LogException s) + retry.
Proof.
  intros Hretry Hdown.
  destruct (request_page_loop_down retry query lang pos from_user Hdown
              (py_range retry) None s)
    as (s' & es & Hrun & Hlen & Hall & Htrace).
  rewrite length_py_range in Hlen.
  assert (Hcomb : List.length (combine (py_range retry) es) = Z.to_nat retry).
  { rewrite length_combine, length_py_range, Hlen. apply Nat.min_id. }
  exists s', es. repeat split; auto.
  - unfold count_Get. rewrite Htrace, !filter_app, !length_app.
    rewrite filter_Get_failed, Hcomb. simpl. lia.
  - unfold count_LogException. rewrite Htrace, !filter_app, !length_app.
    rewrite filter_LogException_failed, Hcomb. simpl. lia.
Qed.

Lemma dict_get_truthy (d : list (string * pyval)) (k : string) (v : pyval) :
  dict_get d k = Some v -> truthy (PDict d) = true.
Proof. destruct d; [discriminate | reflexivity]. Qed.

(** One stalled attempt ends in [continue], with the cursor moved. *)
Lemma attempt_stall (query lang : string) (pos : pyval) (rj : option pyval)
    (from_user : bool) (s : St) (text : string) (w' : World) (m : pyval) :
  requests_get (get_url query lang pos from_user) (world s) = (inr text, w') ->
  stall_next pos text = Some m ->
  attempt query lang pos rj from_user s
  = (Continued m (stall_json pos text),
     mkSt w' (trace s ++ [Get (get_url query lang pos from_user)])).
Proof.
  intros Hget Hstall. unfold attempt. rewrite (fetch_returns _ _ _ _ Hget).
  unfold stall_next, stall_json in *. unfold unwrap.
  destruct (is_None pos).
  - unfold parse.
    destruct (from_html (py_or (PStr text) (PStr ""))) as [e|[|t ts]];
      try discriminate.
    now injection Hstall as <-.
  - destruct (json_loads text) as [[| | | | |d]|]; try discriminate.
    unfold subscript at 1.
    destruct (dict_get d "items_html") as [h|] eqn:Hh; try discriminate.
    destruct (dict_get d "min_position") as [m'|] eqn:Hm; try discriminate.
    unfold parse.
    destruct (from_html (py_or h (PStr ""))) as [e|[|t ts]];
      try discriminate.
    injection Hstall as <-.
    rewrite (dict_get_truthy _ _ _ Hh). unfold subscript. now rewrite Hm.
Qed.




End RetryLoop.

(** On a server that is down, three attempts are made and the empty
    page is returned. *)
Lemma request_page_transport_failures_witness :
  exists s',
    @_request_page (Example.serve Example.down) "rocq" "" PNone 3 false
      (Example.start Example.down) = (inr ([], PNone), s')
    /\ trace s' =
       [Get (SEARCH_INIT_URL "rocq" ""); LogException RequestException;
        LogInfo (msg_retry 2);
        Get (SEARCH_INIT_URL "rocq" ""); LogException RequestException;
        LogInfo (msg_retry 1);
        Get (SEARCH_INIT_URL "rocq" ""); LogException RequestException;
        LogInfo (msg_retry 0);
        LogError (msg_no_success 3)].
Proof.
  destruct (@request_page_transport_failures (Example.serve Example.down)
              "rocq" "" PNone 3 false (Example.start Example.down))
    as (s' & es & Hrun & _).
  - lia.
  - intros u w. exists RequestException, w. split; reflexivity.
  - exists s'. split; [exact Hrun|].
    vm_compute in Hrun. injection Hrun as <-. reflexivity.
Defined.


(** ** Malformed envelopes *)

Section Malformed.
Context {U : Upstream}.

Lemma py_range_first (retry : Z) :
  1 <= retry -> exists rest, py_range retry = 0 :: rest.
Proof.
  intros H. unfold py_range.
  destruct (Z.to_nat retry) as [|n] eqn:Hn; [lia|].
  exists (map Z.of_nat (seq 1 n)). reflexivity.
Qed.

(** C6.  On a continuation request the first body that is not JSON ends
    the call with [UnboundLocalError]: the decoding error is logged and
    [html] set to the empty text, but [response_json] was never bound
    when line 213 reads it.  A body that is a JSON object without the
    ["items_html"] field ends it with [KeyError], and so does one with
    no record and no ["min_position"] field.  None of them is retried. *)
Theorem request_page_malformed_envelope_escapes (query lang : string)
    (pos : pyval) (retry : Z) (from_user : bool) (s : St) (text : string)
    (w' : World) :
  is_None pos = false ->
  1 <= retry ->
  requests_get (get_url query lang pos from_user) (world s) = (inr text, w') ->
  let s1 := mkSt w' (trace s ++ [Get (get_url query lang pos from_user)]) in
  (json_loads text = None ->
   from_html (PStr "") = inr [] ->
   _request_page query lang pos retry from_user s
   = (inl (UnboundLocalError "response_json"),
      log (LogException JSONDecodeError) s1))
  /\
  (forall d,
      json_loads text = Some (PDict d) ->
      dict_get d "items_html" = None ->
      _request_page query lang pos retry from_user s
      = (inl (KeyError "items_html"), s1))
  /\
  (forall d h,
      json_loads text = Some (PDict d) ->
      dict_get d "items_html" = Some h ->
      from_html (py_or h (PStr "")) = inr [] ->
      dict_get d "min_position" = None ->
      _request_page query lang pos retry from_user s
      = (inl (KeyError "min_position"), s1)).
Proof.
  intros Hpos Hretry Hget s1.
  destruct (py_range_first retry Hretry) as [rest Hrange].
  unfold _request_page. rewrite Hrange. simpl.
  unfold attempt. rewrite (fetch_returns _ _ _ _ Hget). fold s1.
  unfold unwrap. rewrite Hpos. split; [|split].
  - intros Hjson Hhtml. rewrite Hjson. unfold parse. rewrite Hhtml.
    reflexivity.
  - intros d Hjson Hitems. rewrite Hjson. unfold subscript.
    rewrite Hitems. reflexivity.
  - intros d h Hjson Hitems Hhtml Hmin. rewrite Hjson.
    unfold subscript at 1. rewrite Hitems. unfold parse. rewrite Hhtml.
    rewrite (dict_get_truthy _ _ _ Hitems). unfold subscript.
    rewrite Hmin. reflexivity.
Qed.

End Malformed.

(** A continuation request answered by a text that is not JSON. *)
Lemma request_page_malformed_envelope_escapes_witness :
  @_request_page (Example.serve Example.garbled) "rocq" "" (PStr "20") 10
    false (Example.start Example.garbled)
  = (inl (UnboundLocalError "response_json"),
     @mkSt (Example.serve Example.garbled) tt
       [Get (SEARCH_RELOAD_URL (PStr "20") "rocq" "");
        LogException JSONDecodeError]).
Proof.
  refine (proj1 (@request_page_malformed_envelope_escapes
                   (Example.serve Example.garbled) "rocq" "" (PStr "20") 10
                   false (Example.start Example.garbled) "<html>"%string tt
                   eq_refl _ eq_refl) eq_refl eq_refl).
  lia.
Defined.

(** ** The user timeline *)

Section UserTimeline.
Context {U : Upstream}.

Lemma request_page_loop_first_page_empty (user : string) (retry : Z) :
  (forall w, exists text w',
      requests_get (USER_INIT_URL user) w = (inr text, w')
      /\ from_html (py_or (PStr text) (PStr "")) = inr []) ->
  forall indices rj s, exists s',
    _request_page_loop retry indices user "" PNone rj true s
    = (inr ([], PNone), s').
Proof.
  intros Hempty indices.
  induction indices as [|i indices IH]; intros rj s.
  - eexists; reflexivity.
  - destruct (Hempty (world s)) as (text & w' & Hget & Hhtml).
    simpl.
    rewrite (attempt_stall user "" PNone rj true s text w' PNone).
    + apply IH.
    + exact Hget.
    + unfold stall_next; simpl. now rewrite Hhtml.
Qed.

Lemma query_user_tweets_loop_spins (user : string) (limit : option Z) :
  (forall w, exists text w',
      requests_get (USER_INIT_URL user) w = (inr text, w')
      /\ from_html (py_or (PStr text) (PStr "")) = inr []) ->
  forall fuel tweets s,
    limit_reached limit (len tweets) = false ->
    query_user_tweets_loop fuel user limit PNone tweets s = None.
Proof.
  intros Hempty fuel.
  induction fuel as [|fuel IH]; intros tweets s Hlimit; [reflexivity|].
  simpl.
  destruct (request_page_loop_first_page_empty user 10 Hempty
              (py_range 10) None s) as [s' Hpage].
  unfold _request_page. rewrite Hpage. simpl.
  rewrite app_nil_r, Hlimit. now apply IH.
Qed.

(** C7.  When every fetch of the user's first page holds no record,
    [query_user_tweets] never returns: each call of [_request_page]
    answers [([], None)], the cursor stays [None], nothing is appended,
    and the [while] loop starts over, whatever the number of iterations
    allowed. *)
Theorem query_user_tweets_empty_upstream_diverges (user : string)
    (limit : option Z) :
  (forall w, exists text w',
      requests_get (USER_INIT_URL user) w = (inr text, w')
      /\ from_html (py_or (PStr text) (PStr "")) = inr []) ->
  limit_reached limit 0 = false ->
  forall fuel s, query_user_tweets fuel user limit s = None.
Proof.
  intros Hempty Hlimit fuel s. unfold query_user_tweets.
  now apply query_user_tweets_loop_spins.
Qed.

End UserTimeline.

(** When the empty page comes after a non-empty one the timeline loop
    does end, through [int(None)]: the [TypeError] is logged and the
    records held are returned. *)
Lemma query_user_tweets_archive_ends_in_TypeError :
  option_map (fun r => (List.length (fst r),
                        filter is_LogException (trace (snd r))))
    (@query_user_tweets (Example.serve Example.archive) 3 "rocq" None
       (Example.start Example.archive))
  = Some (4%nat, [LogException TypeError]).
Proof. vm_compute. reflexivity. Qed.

(** A timeline that answers every request with an empty page. *)
Lemma query_user_tweets_empty_upstream_diverges_witness :
  @query_user_tweets (Example.serve Example.idle) 1000 "rocq" None
    (Example.start Example.idle) = None.
Proof.
  apply (@query_user_tweets_empty_upstream_diverges
           (Example.serve Example.idle) "rocq" None).
  - intros w. exists "stalled"%string, w. split; reflexivity.
  - reflexivity.
Defined.

(** ** The search paginator *)

Section SearchPaginator.
Context {U : Upstream}.

Lemma outer_except_not_returned (e : exn) (rj : option pyval) (s s1 : St)
    (tweets : list Tweet) (new_pos : pyval) :
  outer_except e rj s <> (Returned tweets new_pos, s1).
Proof.
  unfold outer_except.
  destruct (is_RequestException e); [discriminate|].
  destruct (is_JSONDecodeError e); discriminate.
Qed.

Lemma parse_returned (rj : option pyval) (html : pyval) (s s1 : St)
    (tweets : list Tweet) (new_pos : pyval) :
  parse rj html s = (Returned tweets new_pos, s1) ->
  tweets <> [] /\ new_pos = cursor_after PNone tweets.
Proof.
  unfold parse.
  destruct (from_html html) as [e|[|t ts]].
  - intros H; now apply outer_except_not_returned in H.
  - destruct rj as [rj|].
    + destruct (truthy rj); [|discriminate].
      destruct (subscript rj "min_position"); [|discriminate].
      intros H; now apply outer_except_not_returned in H.
    + intros H; now apply outer_except_not_returned in H.
  - intros H; injection H as <- <- _. split; [discriminate | reflexivity].
Qed.

Lemma attempt_returned (query lang : string) (pos : pyval)
    (rj : option pyval) (from_user : bool) (s s1 : St)
    (tweets : list Tweet) (new_pos : pyval) :
  attempt query lang pos rj from_user s = (Returned tweets new_pos, s1) ->
  tweets <> [] /\ new_pos = cursor_after PNone tweets.
Proof.
  unfold attempt.
  destruct (fetch (get_url query lang pos from_user) s) as [[e|text] s2].
  - intros H; now apply outer_except_not_returned in H.
  - destruct (unwrap pos rj text s2) as [[rj' [e|html]] s3].
    + intros H; now apply outer_except_not_returned in H.
    + apply parse_returned.
Qed.

(** The cursor [_request_page] returns is the identifier of the last
    record of the page, [None] with the empty page. *)
Lemma request_page_cursor (query lang : string) (pos : pyval) (retry : Z)
    (from_user : bool) (s s' : St) (tweets : list Tweet) (new_pos : pyval) :
  _request_page query lang pos retry from_user s = (inr (tweets, new_pos), s') ->
  new_pos = cursor_after PNone tweets.
Proof.
  unfold _request_page. generalize (py_range retry) (@None pyval).
  intros indices. revert pos s.
  induction indices as [|i indices IH]; intros pos s rj; simpl.
  - intros H; now injection H as <- <- _.
  - destruct (attempt query lang pos rj from_user s)
      as [[tw np|pos' rj'|rj'|e] s1] eqn:Hattempt.
    + intros H; injection H as <- <- _.
      now apply attempt_returned in Hattempt.
    + apply IH.
    + apply IH.
    + discriminate.
Qed.

Lemma len_cons_nonzero {A : Type} (x : A) (l : list A) :
  (len (x :: l) =? 0) = false.
Proof. apply Z.eqb_neq. unfold len. simpl List.length. lia. Qed.

Lemma len_app {A : Type} (l1 l2 : list A) : len (l1 ++ l2) = len l1 + len l2.
Proof. unfold len. rewrite length_app. lia. Qed.

Lemma len_nonneg {A : Type} (l : list A) : 0 <= len l.
Proof. unfold len. lia. Qed.

Lemma records_cons (p : pyval * list Tweet) (ps : list (pyval * list Tweet)) :
  records (p :: ps) = snd p ++ records ps.
Proof. reflexivity. Qed.

Lemma paired_records (ps : list (pyval * list Tweet)) :
  map fst (paired ps) = records ps.
Proof.
  induction ps as [|[p tw] ps IH]; [reflexivity|].
  unfold paired in *. simpl. rewrite map_app, IH, map_map. simpl.
  now rewrite map_id.
Qed.

Lemma walk_cursors (query lang : string) (k : nat) :
  forall pos s ps final,
    walk k query lang pos s = Some (ps, final) -> cursors_advance pos ps.
Proof.
  induction k as [|k IH]; intros pos s ps final; simpl.
  - intros H; now injection H as <- _.
  - destruct (_request_page query lang pos 10 false s)
      as [[e|[[|t ts] new_pos]] s1] eqn:Hpage; try discriminate.
    destruct (walk k query lang new_pos s1) as [[ps' final']|] eqn:Hwalk;
      [|discriminate].
    intros H; injection H as <- _. simpl. split; [reflexivity|].
    apply request_page_cursor in Hpage. simpl in Hpage. rewrite <- Hpage.
    now apply (IH _ _ _ _ Hwalk).
Qed.

(** While the pages are non-empty and the limit is not reached, the loop
    yields each page whole and moves on. *)
Lemma query_tweets_loop_walk (query lang : string) (limit : option Z)
    (k : nat) :
  forall pos num s ps pos' s',
    walk k query lang pos s = Some (ps, (pos', s')) ->
    never_reached limit num ps = true ->
    forall fuel,
      query_tweets_loop (k + fuel) query lang pos limit num s
      = (paired ps
           ++ fst (query_tweets_loop fuel query lang pos' limit
                     (num + len (records ps)) s'),
         snd (query_tweets_loop fuel query lang pos' limit
                (num + len (records ps)) s')).
Proof.
  induction k as [|k IH]; intros pos num s ps pos' s'; simpl.
  - intros H _ fuel; injection H as <- <- <-. simpl.
    unfold len; simpl. rewrite Z.add_0_r.
    now destruct (query_tweets_loop fuel query lang pos limit num s).
  - destruct (_request_page query lang pos 10 false s)
      as [[e|[[|t ts] new_pos]] s1] eqn:Hpage; try discriminate.
    destruct (walk k query lang new_pos s1) as [[ps' final']|] eqn:Hwalk;
      [|discriminate].
    intros H Hlimit fuel; injection H as <- ->.
    simpl in Hlimit. apply andb_true_iff in Hlimit as [Hhere Hrest].
    apply negb_true_iff in Hhere.
    rewrite len_cons_nonzero, Hhere.
    rewrite (IH _ _ _ _ _ _ Hwalk Hrest fuel).
    rewrite records_cons, len_app. cbn [snd].
    rewrite Z.add_assoc.
    change (paired ((pos, t :: ts) :: ps'))
      with (map (fun t0 => (t0, pos)) (t :: ts) ++ paired ps').
    now rewrite <- app_assoc.
Qed.


Lemma in_paired (ps : list (pyval * list Tweet)) (t : Tweet) (c : pyval) :
  In (t, c) (paired ps) -> exists tweets, In (c, tweets) ps /\ In t tweets.
Proof.
  induction ps as [|[p tw] ps IH]; [intros []|].
  unfold paired; simpl. intros Hin.
  apply in_app_or in Hin as [Hhere|Hrest].
  - apply in_map_iff in Hhere as (x & Hx & Hin). injection Hx as <- <-.
    exists tw. split; [now left | exact Hin].
  - destruct (IH Hrest) as (tweets & H1 & H2).
    exists tweets. split; [now right | exact H2].
Qed.

Lemma query_tweets_loop_yields (query lang : string) (limit : option Z)
    (fuel : nat) :
  forall pos num s, exists k ps final,
    walk k query lang pos s = Some (ps, final)
    /\ fst (query_tweets_loop fuel query lang pos limit num s) = paired ps.
Proof.
  induction fuel as [|fuel IH]; intros pos num s.
  - exists 0%nat, [], (pos, s). now split.
  - simpl.
    destruct (_request_page query lang pos 10 false s)
      as [[e|[[|t ts] new_pos]] s1] eqn:Hpage.
    + exists 0%nat, [], (pos, s). now split.
    + exists 0%nat, [], (pos, s). now split.
    + rewrite len_cons_nonzero.
      destruct (limit_reached limit (num + len (t :: ts))).
      * exists 1%nat, [(pos, t :: ts)], (new_pos, s1). simpl.
        rewrite Hpage. unfold paired. simpl. now rewrite app_nil_r.
      * destruct (IH new_pos (num + len (t :: ts)) s1)
          as (k & ps & final & Hwalk & Hyield).
        exists (S k), ((pos, t :: ts) :: ps), final. simpl.
        rewrite Hpage, Hwalk. split; [reflexivity|].
        destruct (query_tweets_loop fuel query lang new_pos limit
                    (num + len (t :: ts)) s1) as [rest fin].
        simpl in *. unfold paired. simpl. now rewrite Hyield.
Qed.

(** C10.  Whatever the run, the pairs [query_tweets] yields are the
    records of successive non-empty pages, each paired with the cursor
    that was passed to the call of [_request_page] that returned its
    page; for the first page that is the caller's [pos]. *)
Theorem query_tweets_pairs_request_cursor (fuel : nat) (query lang : string)
    (pos : pyval) (limit : option Z) (s : St) :
  exists k ps final,
    walk k (quote_query query) lang pos (log (LogInfo (msg_querying query)) s)
      = Some (ps, final)
    /\ fst (query_tweets fuel query lang pos limit s) = paired ps
    /\ (forall t c, In (t, c) (fst (query_tweets fuel query lang pos limit s)) ->
        exists tweets, In (c, tweets) ps /\ In t tweets)
    /\ (forall c tweets rest, ps = (c, tweets) :: rest -> c = pos).
Proof.
  destruct (query_tweets_loop_yields (quote_query query) lang limit fuel pos 0
              (log (LogInfo (msg_querying query)) s))
    as (k & ps & final & Hwalk & Hyield).
  exists k, ps, final. unfold query_tweets. rewrite Hyield.
  repeat split.
  - exact Hwalk.
  - apply in_paired.
  - intros c tweets rest ->.
    apply walk_cursors in Hwalk. now destruct Hwalk as [<- _].
Qed.

End SearchPaginator.


(** ** The limit *)

Section Limit.
Context {U : Upstream}.

Lemma never_reached_below (l : Z) (ps : list (pyval * list Tweet)) :
  forall num, num + len (records ps) < l ->
              never_reached (Some l) num ps = true.
Proof.
  induction ps as [|[p tw] ps IH]; intros num Hlt; [reflexivity|].
  rewrite records_cons, len_app in Hlt. cbn [snd] in Hlt.
  pose proof (len_nonneg (records ps)) as Hpos.
  simpl. rewrite IH by lia.
  replace (num + len tw >=? l) with false
    by (symmetry; rewrite Z.geb_leb; apply Z.leb_gt; lia).
  now rewrite andb_false_r.
Qed.

Lemma paired_app (ps1 ps2 : list (pyval * list Tweet)) :
  paired (ps1 ++ ps2) = paired ps1 ++ paired ps2.
Proof. unfold paired. apply flat_map_app. Qed.

Lemma len_map {A B : Type} (f : A -> B) (l : list A) : len (map f l) = len l.
Proof. unfold len. now rewrite length_map. Qed.

(** While no page trips the cursor comparison and the limit is not
    reached, the timeline loop appends each page whole and moves on. *)
Lemma query_user_tweets_loop_walk (user : string) (limit : option Z)
    (k : nat) :
  forall pos tweets s ps pos' s',
    user_walk k user pos s = Some (ps, (pos', s')) ->
    never_reached limit (len tweets) ps = true ->
    forall fuel,
      query_user_tweets_loop (k + fuel) user limit pos tweets s
      = query_user_tweets_loop fuel user limit pos' (tweets ++ records ps) s'.
Proof.
  induction k as [|k IH]; intros pos tweets s ps pos' s'; simpl.
  - intros H _ fuel; injection H as <- <- <-. simpl. now rewrite app_nil_r.
  - destruct (_request_page user "" pos 10 true s)
      as [[e|[new_tweets new_pos]] s1] eqn:Hpage; try discriminate.
    destruct (reversed pos new_pos) as [e|[|]]; try discriminate.
    destruct (user_walk k user new_pos s1) as [[ps' final']|] eqn:Hwalk;
      [|discriminate].
    intros H Hlimit fuel; injection H as <- ->.
    simpl in Hlimit. apply andb_true_iff in Hlimit as [Hhere Hrest].
    apply negb_true_iff in Hhere.
    rewrite len_app, Hhere.
    rewrite <- len_app in Hrest.
    rewrite (IH _ _ _ _ _ _ Hwalk Hrest fuel).
    rewrite records_cons. cbn [snd]. now rewrite app_assoc.
Qed.

(** C9.  When the pages before the last leave the count below the limit
    [l] and the last page brings it to [l] or beyond, both paginators
    stop on that page and keep all of it: [query_tweets] yields every
    record of every page, [query_user_tweets] returns them all; the
    number produced is at least [l] and less than [l] plus the size of
    the last page.  Nothing is requested after that page. *)
Theorem limit_keeps_last_page_whole (k : nat) (l : Z)
    (front : list (pyval * list Tweet)) (p new_pos : pyval)
    (final : list Tweet) :
  len (records front) < l <= len (records front) + len final ->
  (forall query lang pos s s_mid s_k,
      walk k (quote_query query) lang pos
        (log (LogInfo (msg_querying query)) s) = Some (front, (p, s_mid)) ->
      _request_page (quote_query query) lang p 10 false s_mid
        = (inr (final, new_pos), s_k) ->
      forall fuel, (k < fuel)%nat ->
        query_tweets fuel query lang pos (Some l) s
        = (paired (front ++ [(p, final)]),
           Some (log (LogInfo (msg_got_for (len (records front) + len final)
                                 (quote_query query))) s_k))
        /\ map fst (paired (front ++ [(p, final)])) = records front ++ final
        /\ l <= len (paired (front ++ [(p, final)])) < l + len final)
  /\
  (forall user s s_mid s_k,
      user_walk k user PNone
        (log (LogInfo (msg_querying_user_tweets user)) s)
        = Some (front, (p, s_mid)) ->
      _request_page user "" p 10 true s_mid = (inr (final, new_pos), s_k) ->
      reversed p new_pos = inr false ->
      forall fuel, (k < fuel)%nat ->
        query_user_tweets fuel user (Some l) s
        = Some (records front ++ final,
                log (LogInfo (msg_got_from (len (records front ++ final)) user))
                  s_k)
        /\ l <= len (records front ++ final) < l + len final).
Proof.
  intros Hlimit.
  assert (Hbelow : never_reached (Some l) 0 front = true)
    by (apply never_reached_below; lia).
  assert (Hreached : limit_reached (Some l) (len (records front) + len final)
                     = true).
  { pose proof (len_nonneg (records front)).
    unfold limit_reached. apply andb_true_iff. split.
    - apply negb_true_iff, Z.eqb_neq. lia.
    - rewrite Z.geb_leb. apply Z.leb_le. lia. }
  split.
  - intros query lang pos s s_mid s_k Hwalk Hpage fuel Hfuel.
    assert (Hrec : map fst (paired (front ++ [(p, final)]))
                   = records front ++ final).
    { rewrite paired_records. unfold records.
      rewrite map_app, concat_app. simpl. now rewrite app_nil_r. }
    split; [|split].
    + unfold query_tweets.
      replace fuel with (k + S (fuel - S k))%nat by lia.
      rewrite (query_tweets_loop_walk _ _ _ _ _ _ _ _ _ _ Hwalk Hbelow).
      simpl. rewrite Hpage.
      destruct final as [|t ts].
      * unfold len in Hlimit; simpl in Hlimit; lia.
      * unfold limit_reached in Hreached.
        rewrite len_cons_nonzero, Hreached. simpl.
        rewrite paired_app. unfold paired at 2. simpl.
        now rewrite !app_nil_r.
    + exact Hrec.
    + rewrite <- (len_map fst), Hrec, len_app. lia.
  - intros user s s_mid s_k Hwalk Hpage Hrev fuel Hfuel.
    split.
    + unfold query_user_tweets.
      replace fuel with (k + S (fuel - S k))%nat by lia.
      rewrite (query_user_tweets_loop_walk user (Some l) k PNone [] _ _ _ _
                 Hwalk Hbelow).
      cbn [query_user_tweets_loop app].
      rewrite <- len_app in Hreached.
      rewrite Hpage, Hrev, Hreached. reflexivity.
    + rewrite len_app. lia.
Qed.

End Limit.

(** With a limit of three on the two-page archive, both paginators stop
    after the second page and produce four records. *)
Lemma limit_keeps_last_page_whole_witness :
  (exists s',
      @query_tweets (Example.serve Example.archive) 2 "rocq" "" PNone (Some 3)
        (Example.start Example.archive)
      = ([(Example.mk_tweet "30" 300, PNone);
          (Example.mk_tweet "20" 200, PNone);
          (Example.mk_tweet "15" 150, PStr "20");
          (Example.mk_tweet "10" 100, PStr "20")], Some s'))
  /\
  (exists s',
      @query_user_tweets (Example.serve Example.archive) 2 "rocq" (Some 3)
        (Example.start Example.archive)
      = Some ([Example.mk_tweet "30" 300; Example.mk_tweet "20" 200;
               Example.mk_tweet "15" 150; Example.mk_tweet "10" 100], s')).
Proof.
  destruct (@limit_keeps_last_page_whole (Example.serve Example.archive)
              1 3
              [(PNone, [Example.mk_tweet "30" 300; Example.mk_tweet "20" 200])]
              (PStr "20") (PStr "10")
              [Example.mk_tweet "15" 150; Example.mk_tweet "10" 100])
    as [Hsearch Htimeline].
  - vm_compute. split; [reflexivity | discriminate].
  - split.
    + eexists.
      refine (proj1 (Hsearch "rocq"%string ""%string PNone
                       (Example.start Example.archive) _ _ _ _ 2%nat _)).
      * vm_compute. reflexivity.
      * vm_compute. reflexivity.
      * lia.
    + eexists.
      refine (proj1 (Htimeline "rocq"%string
                       (Example.start Example.archive) _ _ _ _ _ 2%nat _)).
      * vm_compute. reflexivity.
      * vm_compute. reflexivity.
      * reflexivity.
      * lia.
Defined.

(** ** The tail merge *)

Section TailMerge.
Context {U : Upstream}.

Lemma last_item_snoc (l : list Tweet) (x : Tweet) :
  last_item (l ++ [x]) = inr x.
Proof.
  destruct l as [|t l]; [reflexivity|].
  simpl. f_equal. apply last_last.
Qed.

Lemma last_item_nonempty (l : list Tweet) :
  l <> [] -> exists x, last_item l = inr x.
Proof. destruct l; [easy | eexists; reflexivity]. Qed.

(** On a non-empty list the merge never raises; what it appends is a
    subsequence of the page whose timestamps strictly decrease, starting
    below that of the last record accumulated. *)
Lemma tail_merge_appends (new_tweets : list Tweet) :
  forall tweets, tweets <> [] ->
    exists added,
      tail_merge tweets new_tweets = (None, tweets ++ added)
      /\ subseq added new_tweets
      /\ (forall l, last_item tweets = inr l ->
                    older_chain (tweet_timestamp l) added).
Proof.
  induction new_tweets as [|tweet rest IH]; intros tweets Hne.
  - exists []. simpl. rewrite app_nil_r.
    split; [reflexivity | split; [constructor | easy]].
  - destruct (last_item_nonempty tweets Hne) as [l Hl].
    cbn [tail_merge]. rewrite Hl.
    destruct (tweet_timestamp l >? tweet_timestamp tweet) eqn:Hcmp.
    + destruct (IH (tweets ++ [tweet])) as (added & Hrun & Hsub & Hchain).
      { now destruct tweets. }
      exists (tweet :: added). split; [|split].
      * now rewrite Hrun, <- app_assoc.
      * now apply subseq_take.
      * intros l' Hl'. injection Hl' as <-.
        simpl. split.
        -- apply Z.gtb_lt in Hcmp. lia.
        -- apply Hchain, last_item_snoc.
    + destruct (IH tweets Hne) as (added & Hrun & Hsub & Hchain).
      exists added.
      split; [exact Hrun | split; [now apply subseq_skip|]].
      now rewrite <- Hl.
Qed.

(** The merge examines the page one record at a time, against the last
    record of the list as it then stands. *)
Lemma tail_merge_snoc (seen : list Tweet) (t : Tweet) :
  forall tweets,
    tail_merge tweets (seen ++ [t])
    = match tail_merge tweets seen with
      | (Some e, acc) => (Some e, acc)
      | (None, acc) =>
          match last_item acc with
          | inl e => (Some e, acc)
          | inr l =>
              (None,
               if tweet_timestamp l >? tweet_timestamp t
               then acc ++ [t] else acc)
          end
      end.
Proof.
  induction seen as [|x seen IH]; intros tweets; simpl.
  - destruct (last_item tweets) as [e|l]; [reflexivity|].
    now destruct (tweet_timestamp l >? tweet_timestamp t).
  - destruct (last_item tweets) as [e|l]; [reflexivity|].
    destruct (tweet_timestamp l >? tweet_timestamp x); apply IH.
Qed.

Lemma user_walk_cursor (user : string) (k : nat) :
  forall pos s ps pos' s',
    user_walk k user pos s = Some (ps, (pos', s')) ->
    truthy pos' = true ->
    records ps <> [] \/ pos' = pos.
Proof.
  induction k as [|k IH]; intros pos s ps pos' s'; simpl.
  - intros H _; injection H as _ <- _. now right.
  - destruct (_request_page user "" pos 10 true s)
      as [[e|[new_tweets new_pos]] s1] eqn:Hpage; try discriminate.
    destruct (reversed pos new_pos) as [e|[|]]; try discriminate.
    destruct (user_walk k user new_pos s1) as [[ps' final']|] eqn:Hwalk;
      [|discriminate].
    intros H Htruthy; injection H as <- ->. left.
    rewrite records_cons. cbn [snd].
    destruct (IH _ _ _ _ _ Hwalk Htruthy) as [Hne | ->].
    + intros Happ. now apply app_eq_nil in Happ as [_ Hnil].
    + apply request_page_cursor in Hpage. subst new_pos.
      destruct new_tweets; [discriminate Htruthy | discriminate].
Qed.

(** C4, as the code has it.  Once the timeline paginator holds a cursor
    [pos] and the page requested there comes back with a cursor that is
    greater as an integer, it appends to the records accumulated so far
    those records of the new page that are strictly older than the last
    record of the list as it stands when each is examined, and returns
    without another request. *)
Theorem query_user_tweets_tail_merge (k : nat) (user : string)
    (limit : option Z) (s : St) (front : list (pyval * list Tweet))
    (pos new_pos : pyval) (new_tweets : list Tweet) (s_k s1 : St) (a b : Z) :
  user_walk k user PNone (log (LogInfo (msg_querying_user_tweets user)) s)
    = Some (front, (pos, s_k)) ->
  never_reached limit 0 front = true ->
  truthy pos = true ->
  _request_page user "" pos 10 true s_k = (inr (new_tweets, new_pos), s1) ->
  py_int int_of_str new_pos = inr a ->
  py_int int_of_str pos = inr b ->
  b < a ->
  exists added,
    (forall fuel, (k < fuel)%nat ->
       query_user_tweets fuel user limit s
       = Some (records front ++ added,
               log (LogInfo (msg_got_from (len (records front ++ added)) user))
                 s1))
    /\ tail_merge (records front) new_tweets = (None, records front ++ added)
    /\ subseq added new_tweets
    /\ (forall l, last_item (records front) = inr l ->
                  older_chain (tweet_timestamp l) added)
    /\ (forall seen t unseen l,
           new_tweets = seen ++ t :: unseen ->
           last_item (snd (tail_merge (records front) seen)) = inr l ->
           snd (tail_merge (records front) (seen ++ [t]))
           = if tweet_timestamp l >? tweet_timestamp t
             then snd (tail_merge (records front) seen) ++ [t]
             else snd (tail_merge (records front) seen)).
Proof.
  intros Hwalk Hlimit Htruthy Hpage Ha Hb Hlt.
  assert (Hne : records front <> []).
  { destruct (user_walk_cursor _ _ _ _ _ _ _ Hwalk Htruthy) as [H | ->];
      [exact H | discriminate Htruthy]. }
  destruct (tail_merge_appends new_tweets (records front) Hne)
    as (added & Hmerge & Hsub & Hchain).
  exists added. repeat split; auto.
  - intros fuel Hfuel. unfold query_user_tweets.
    replace fuel with (k + S (fuel - S k))%nat by lia.
    rewrite (query_user_tweets_loop_walk user limit k PNone [] _ _ _ _
               Hwalk Hlimit).
    cbn [query_user_tweets_loop app]. rewrite Hpage.
    unfold reversed. rewrite Htruthy, Ha, Hb.
    replace (a >? b) with true by (symmetry; apply Z.gtb_lt; lia).
    now rewrite Hmerge.
  - intros seen t unseen l _ Hl. rewrite tail_merge_snoc.
    destruct (tail_merge_appends seen (records front) Hne)
      as (added' & Hseen & _).
    rewrite Hseen in *. cbn [snd] in *. now rewrite Hl.
Qed.

End TailMerge.

(** On the timeline whose pages end at 100, 150, 200: the page requested
    at 100 comes back with cursor 150; of its two records only the one
    older than the record held is appended, and the run ends. *)
Lemma query_user_tweets_tail_merge_witness :
  exists s',
    @query_user_tweets (Example.serve Example.rising) 2 "rocq" None
      (Example.start Example.rising)
    = Some ([Example.mk_tweet "100" 50; Example.mk_tweet "150" 40], s').
Proof.
  destruct (@query_user_tweets_tail_merge (Example.serve Example.rising)
              1 "rocq" None (Example.start Example.rising)
              [(PNone, [Example.mk_tweet "100" 50])]
              (PStr "100") (PStr "150")
              [Example.mk_tweet "160" 70; Example.mk_tweet "150" 40]
              (@mkSt (Example.serve Example.rising) tt
                 [LogInfo (msg_querying_user_tweets "rocq");
                  Get (USER_INIT_URL "rocq")])
              (@mkSt (Example.serve Example.rising) tt
                 [LogInfo (msg_querying_user_tweets "rocq");
                  Get (USER_INIT_URL "rocq");
                  Get (USER_RELOAD_URL "rocq" (PStr "100"))])
              150 100)
    as (added & Hrun & Hmerge & _).
  - vm_compute. reflexivity.
  - reflexivity.
  - reflexivity.
  - vm_compute. reflexivity.
  - reflexivity.
  - reflexivity.
  - lia.
  - eexists. rewrite (Hrun 2%nat) by lia.
    vm_compute in Hmerge. injection Hmerge as <-. reflexivity.
Defined.

(** With cursors 100, 150, 200 the comparison that switches to the merge
    is 150 against 100: the run makes two requests, never asks for the
    page after 150, and does not return what merging the third page into
    the first two would give. *)
Lemma query_user_tweets_rising_cursors_counterexample :
  let run :=
    @query_user_tweets (Example.serve Example.rising) 5 "rocq" None
      (Example.start Example.rising) in
  let page1 := [Example.mk_tweet "100" 50] in
  let page2 := [Example.mk_tweet "160" 70; Example.mk_tweet "150" 40] in
  let page3 := [Example.mk_tweet "200" 30] in
  @from_html (Example.serve Example.rising) (PStr "user-first") = inr page1
  /\ @from_html (Example.serve Example.rising) (PStr "items-after-100")
     = inr page2
  /\ @from_html (Example.serve Example.rising) (PStr "items-after-150")
     = inr page3
  /\ option_map fst run
     = Some [Example.mk_tweet "100" 50; Example.mk_tweet "150" 40]
  /\ option_map fst run
     <> Some (snd (@tail_merge (Example.serve Example.rising)
                     (page1 ++ page2) page3))
  /\ option_map (fun r => filter is_Get (trace (snd r))) run
     = Some [Get (USER_INIT_URL "rocq");
             Get (USER_RELOAD_URL "rocq" (PStr "100"))].
Proof.
  vm_compute. repeat split; discriminate.
Qed.

(** ** The range partitioner *)

Section Partition.
Context {U : Upstream}.

Lemma floor_step (i D : Z) (p : positive) :
  Qfloor (inject_Z i * ((inject_Z D - 0) / inject_Z (Z.pos p)) + 0)%Q
  = i * D / Z.pos p.
Proof.
  transitivity (Qfloor ((i * D) # p)); [|reflexivity].
  apply Qfloor_comp.
  rewrite (Qmake_Qdiv (i * D) p), inject_Z_mult. field. discriminate.
Qed.

Lemma floor_fraction (i D : Z) (p : positive) :
  Qfloor (inject_Z i / inject_Z (Z.pos p) * (inject_Z D - 0) + 0)%Q
  = i * D / Z.pos p.
Proof.
  transitivity (Qfloor ((i * D) # p)); [|reflexivity].
  apply Qfloor_comp.
  rewrite (Qmake_Qdiv (i * D) p), inject_Z_mult. field. discriminate.
Qed.

Lemma py_range_snoc (n : Z) : 0 <= n -> py_range (n + 1) = py_range n ++ [n].
Proof.
  intros Hn. unfold py_range.
  replace (Z.to_nat (n + 1)) with (S (Z.to_nat n)) by lia.
  rewrite seq_S, map_app. simpl. do 2 f_equal. lia.
Qed.

Lemma py_range_cons (n : Z) :
  0 <= n -> py_range (n + 1) = 0 :: map (fun i => i + 1) (py_range n).
Proof.
  intros Hn. unfold py_range.
  replace (Z.to_nat (n + 1)) with (S (Z.to_nat n)) by lia.
  simpl. f_equal. rewrite <- seq_shift, !map_map.
  apply map_ext. intros a. lia.
Qed.


Lemma combine_map {A B C : Type} (f : A -> B) (g : A -> C) (l : list A) :
  combine (map f l) (map g l) = map (fun x => (f x, g x)) l.
Proof. induction l; simpl; [reflexivity | now f_equal]. Qed.

Lemma clamp_poolsize_min (poolsize no_days : Z) :
  clamp_poolsize poolsize no_days = Z.min poolsize no_days.
Proof.
  unfold clamp_poolsize.
  destruct (poolsize >? no_days) eqn:H.
  - apply Z.gtb_lt in H. lia.
  - rewrite Z.gtb_ltb in H. apply Z.ltb_ge in H. lia.
Qed.

(** The boundaries are the begin date plus the whole days of the
    interpolation. *)
Lemma dateranges_closed_form (poolsize begindate enddate : Z) :
  begindate < enddate -> 1 <= poolsize ->
  dateranges poolsize begindate enddate
  = inr (map (fun i => begindate + i * (enddate - begindate)
                                    / Z.min poolsize (enddate - begindate))
             (py_range (Z.min poolsize (enddate - begindate) + 1))).
Proof.
  intros Hdates Hpool. unfold dateranges.
  rewrite clamp_poolsize_min.
  set (D := enddate - begindate).
  destruct (Z.min poolsize D) as [|p|p] eqn:Hn; try lia.
  unfold linspace.
  replace (Z.pos p + 1 <? 0) with false by (symmetry; apply Z.ltb_ge; lia).
  replace (Z.pos p + 1 - 1) with (Z.pos p) by lia.
  replace (1 <? Z.pos p + 1) with true by (symmetry; apply Z.ltb_lt; lia).
  replace (0 <? Z.pos p) with true by reflexivity.
  rewrite py_range_snoc by lia.
  f_equal. unfold set_last.
  assert (Hlast : date_plus_days begindate (inject_Z D)
                  = begindate + Z.pos p * D / Z.pos p).
  { unfold date_plus_days. rewrite Qfloor_Z, Z.mul_comm, Z.div_mul; lia. }
  destruct (Qeq_bool ((inject_Z D - 0) / inject_Z (Z.pos p)) 0);
    rewrite !map_last, removelast_last, !map_map, Hlast;
    f_equal; apply map_ext; intros i; unfold date_plus_days; f_equal.
  - apply floor_fraction.
  - apply floor_step.
Qed.

Lemma date_pairs_closed_form (f : Z -> Z) (n : Z) :
  0 <= n ->
  date_pairs (map f (py_range (n + 1)))
  = map (fun i => (f i, f (i + 1))) (py_range n).
Proof.
  intros Hn. unfold date_pairs.
  rewrite (py_range_snoc n Hn) at 1.
  rewrite map_last, removelast_last, (py_range_cons n Hn). simpl tl.
  rewrite map_map. apply combine_map.
Qed.



End Partition.


(** ** The outermost boundary of the parallel search *)

Section Boundary.
Context {U : Upstream}.

(** The three other public operations end every exception in their
    handlers: the profile fetch answers [None], the paginators what they
    hold. *)
Lemma query_user_suppresses (user : string) (s s1 : St) (e : exn) :
  _request_user (get_user_url user PNone) 10
    (log (LogInfo (msg_querying_profile user)) s) = (inl e, s1) ->
  query_user user s = (None, except_all e s1).
Proof. unfold query_user. now intros ->. Qed.

Lemma query_tweets_loop_suppresses (fuel : nat) (query lang : string)
    (pos : pyval) (limit : option Z) (num_tweets : Z) (s s1 : St) (e : exn) :
  _request_page query lang pos 10 false s = (inl e, s1) ->
  query_tweets_loop (S fuel) query lang pos limit num_tweets s
  = ([], Some (log (LogInfo (msg_got_for num_tweets query))
                 (except_all e s1))).
Proof. cbn [query_tweets_loop]. now intros ->. Qed.

Lemma query_user_tweets_loop_suppresses (fuel : nat) (user : string)
    (limit : option Z) (pos : pyval) (tweets : list Tweet) (s s1 : St)
    (e : exn) :
  _request_page user "" pos 10 true s = (inl e, s1) ->
  query_user_tweets_loop (S fuel) user limit pos tweets s
  = Some (tweets,
          log (LogInfo (msg_got_from (len tweets) user)) (except_all e s1)).
Proof. cbn [query_user_tweets_loop]. now intros ->. Qed.

(** C8.  [query_tweets_parallel] called with the end date equal to the
    begin date lets an exception out: the pool size is clamped to zero,
    [Pool(0)] raises [ValueError], which [except KeyboardInterrupt] does
    not catch, and the [finally] clause then reads the unbound [pool];
    with a limit set, the division of line 136 raises before the [try]
    is entered. *)
Theorem query_tweets_parallel_empty_range_raises (query lang : string)
    (date : Z) (s : St) :
  query_tweets_parallel query lang None 20 date date s
    = (inl (UnboundLocalError "pool"), s)
  /\ query_tweets_parallel query lang (Some 100) 20 date date s
    = (inl ZeroDivisionError, s).
Proof.
  unfold query_tweets_parallel, dateranges.
  rewrite Z.sub_diag. split; reflexivity.
Qed.

End Boundary.

(** * Further properties of the module *)

(** ** What a call of [_request_page] can do *)

Section RequestPage.
Context {U : Upstream}.

Lemma filter_none {A : Type} (f : A -> bool) (l : list A) :
  Forall (fun x => f x = false) l -> filter f l = [].
Proof.
  induction 1 as [|x l Hx _ IH]; [reflexivity|].
  simpl. now rewrite Hx.
Qed.

Lemma outer_except_events (e : exn) (rj : option pyval) (s : St) :
  exists l, trace (snd (outer_except e rj s)) = trace s ++ l
            /\ Forall (fun ev => is_Get ev = false) l.
Proof.
  unfold outer_except.
  destruct (is_RequestException e);
    [exists [LogException e]; split; [reflexivity | now repeat constructor]|].
  destruct (is_JSONDecodeError e);
    [exists [LogException e]; split; [reflexivity | now repeat constructor]|].
  exists []. simpl. now rewrite app_nil_r.
Qed.

Lemma unwrap_events (pos : pyval) (rj : option pyval) (text : string)
    (s : St) :
  exists l, trace (snd (unwrap pos rj text s)) = trace s ++ l
            /\ Forall (fun ev => is_Get ev = false) l.
Proof.
  unfold unwrap.
  destruct (is_None pos);
    [exists []; simpl; now rewrite app_nil_r|].
  destruct (json_loads text) as [v|];
    [|exists [LogException JSONDecodeError]; split;
      [reflexivity | now repeat constructor]].
  destruct (subscript v "items_html") as [e|h];
    [|exists []; simpl; now rewrite app_nil_r].
  destruct (is_ValueError e);
    [exists [LogException e]; split; [reflexivity | now repeat constructor]|].
  exists []. simpl. now rewrite app_nil_r.
Qed.

Lemma parse_events (rj : option pyval) (html : pyval) (s : St) :
  exists l, trace (snd (parse rj html s)) = trace s ++ l
            /\ Forall (fun ev => is_Get ev = false) l.
Proof.
  unfold parse.
  destruct (from_html html) as [e|[|t ts]].
  - apply outer_except_events.
  - destruct rj as [rj|]; [|apply outer_except_events].
    destruct (truthy rj); [|exists []; simpl; now rewrite app_nil_r].
    destruct (subscript rj "min_position");
      [apply outer_except_events | exists []; simpl; now rewrite app_nil_r].
  - exists []. simpl. now rewrite app_nil_r.
Qed.

(** One pass through the loop body makes one request, for the URL of the
    cursor it starts with, and otherwise only logs. *)
Lemma attempt_events (query lang : string) (pos : pyval) (rj : option pyval)
    (from_user : bool) (s : St) :
  exists l,
    trace (snd (attempt query lang pos rj from_user s))
    = trace s ++ Get (get_url query lang pos from_user) :: l
    /\ Forall (fun ev => is_Get ev = false) l.
Proof.
  unfold attempt, fetch.
  destruct (requests_get (get_url query lang pos from_user) (world s))
    as [[e|text] w].
  - destruct (outer_except_events e rj
                (mkSt w (trace s ++ [Get (get_url query lang pos from_user)])))
      as (l & Hl & Hno).
    exists l. rewrite Hl. simpl. now rewrite <- app_assoc.
  - set (s1 := mkSt w (trace s ++ [Get (get_url query lang pos from_user)])).
    destruct (unwrap_events pos rj text s1) as (l1 & Hl1 & Hno1).
    destruct (unwrap pos rj text s1) as [[rj' [e|html]] s2]; simpl in Hl1.
    + destruct (outer_except_events e rj' s2) as (l2 & Hl2 & Hno2).
      exists (l1 ++ l2). rewrite Hl2, Hl1. unfold s1; simpl.
      rewrite <- !app_assoc. split; [reflexivity | now apply Forall_app].
    + destruct (parse_events rj' html s2) as (l2 & Hl2 & Hno2).
      exists (l1 ++ l2). rewrite Hl2, Hl1. unfold s1; simpl.
      rewrite <- !app_assoc. split; [reflexivity | now apply Forall_app].
Qed.

Lemma attempt_count_Get (query lang : string) (pos : pyval)
    (rj : option pyval) (from_user : bool) (s : St) :
  count_Get (snd (attempt query lang pos rj from_user s)) = S (count_Get s).
Proof.
  destruct (attempt_events query lang pos rj from_user s) as (l & Hl & Hno).
  unfold count_Get. rewrite Hl, filter_app, length_app. simpl.
  rewrite (filter_none _ _ Hno). simpl. lia.
Qed.

Lemma count_Get_log (ev : event) (s : St) :
  is_Get ev = false -> count_Get (log ev s) = count_Get s.
Proof.
  intros Hev. unfold count_Get, log. simpl.
  rewrite filter_app, length_app. simpl. rewrite Hev. simpl. lia.
Qed.

Lemma request_page_loop_bound (retry : Z) (query lang : string)
    (from_user : bool) (indices : list Z) :
  forall pos rj s,
    (count_Get (snd (_request_page_loop retry indices query lang pos rj
                       from_user s))
     <= count_Get s + List.length indices)%nat.
Proof.
  induction indices as [|i indices IH]; intros pos rj s; simpl.
  - rewrite count_Get_log by reflexivity. lia.
  - pose proof (attempt_count_Get query lang pos rj from_user s) as Hone.
    destruct (attempt query lang pos rj from_user s)
      as [[tw np|pos' rj'|rj'|e] s1]; simpl in *.
    + lia.
    + specialize (IH pos' rj' s1). lia.
    + specialize (IH pos rj' (log (LogInfo (msg_retry (retry - (i + 1)))) s1)).
      rewrite count_Get_log in IH by reflexivity. lia.
    + lia.
Qed.

(** X1.  Whatever the upstream answers, a call of [_request_page] makes
    at most [retry] requests. *)
Theorem request_page_request_bound (query lang : string) (pos : pyval)
    (retry : Z) (from_user : bool) (s : St) :
  (count_Get (snd (_request_page query lang pos retry from_user s))
   <= count_Get s + Z.to_nat retry)%nat.
Proof.
  unfold _request_page.
  pose proof (request_page_loop_bound retry query lang from_user
                (py_range retry) pos None s) as H.
  now rewrite length_py_range in H.
Qed.

Lemma request_page_loop_shape (retry : Z) (query lang : string)
    (from_user : bool) (indices : list Z) :
  forall pos rj s tweets new_pos s',
    _request_page_loop retry indices query lang pos rj from_user s
    = (inr (tweets, new_pos), s') ->
    (tweets <> [] /\ new_pos = cursor_after PNone tweets)
    \/ (tweets = [] /\ new_pos = PNone
        /\ count_Get s' = (count_Get s + List.length indices)%nat
        /\ exists l, trace s' = l ++ [LogError (msg_no_success retry)]).
Proof.
  induction indices as [|i indices IH]; intros pos rj s tweets new_pos s';
    simpl.
  - intros H; injection H as <- <- <-. right. repeat split.
    + rewrite count_Get_log by reflexivity. lia.
    + now exists (trace s).
  - pose proof (attempt_count_Get query lang pos rj from_user s) as Hone.
    destruct (attempt query lang pos rj from_user s)
      as [[tw np|pos' rj'|rj'|e] s1] eqn:Hattempt; simpl in Hone.
    + intros H; injection H as <- <- <-. left.
      now apply attempt_returned in Hattempt.
    + intros H. apply IH in H as [Hfull | (H1 & H2 & H3 & H4)];
        [now left | right].
      repeat split; auto. lia.
    + intros H. apply IH in H as [Hfull | (H1 & H2 & H3 & H4)];
        [now left | right].
      rewrite count_Get_log in H3 by reflexivity.
      repeat split; auto. lia.
    + discriminate.
Qed.

(** X2.  A call of [_request_page] that returns gives either a
    non-empty page with the identifier of its last record as cursor, or
    the empty page with the cursor [None]; the empty page comes only
    after all [retry] attempts were made, and the error naming [retry]
    is then the last event. *)
Theorem request_page_result_shape (query lang : string) (pos : pyval)
    (retry : Z) (from_user : bool) (s s' : St) (tweets : list Tweet)
    (new_pos : pyval) :
  _request_page query lang pos retry from_user s
    = (inr (tweets, new_pos), s') ->
  (tweets <> [] /\ new_pos = cursor_after PNone tweets)
  \/ (tweets = [] /\ new_pos = PNone
      /\ count_Get s' = (count_Get s + Z.to_nat retry)%nat
      /\ exists l, trace s' = l ++ [LogError (msg_no_success retry)]).
Proof.
  unfold _request_page. intros H.
  apply request_page_loop_shape in H.
  now rewrite length_py_range in H.
Qed.

Lemma outer_except_not_continued (e : exn) (rj : option pyval) (s s1 : St)
    (m : pyval) (rj' : option pyval) :
  outer_except e rj s <> (Continued m rj', s1).
Proof.
  unfold outer_except.
  destruct (is_RequestException e); [discriminate|].
  destruct (is_JSONDecodeError e); discriminate.
Qed.

Lemma attempt_first_page_continued (query lang : string) (rj : option pyval)
    (from_user : bool) (s s1 : St) (m : pyval) (rj' : option pyval) :
  attempt query lang PNone rj from_user s = (Continued m rj', s1) ->
  m = PNone.
Proof.
  unfold attempt.
  destruct (fetch (get_url query lang PNone from_user) s) as [[e|text] s2].
  - intros H; now apply outer_except_not_continued in H.
  - unfold unwrap. simpl. unfold parse.
    destruct (from_html (py_or (PStr text) (PStr ""))) as [e|[|t ts]].
    + intros H; now apply outer_except_not_continued in H.
    + simpl. now intros H; injection H as <- _ _.
    + discriminate.
Qed.

Lemma requests_only_log (u : url) (l : list event) :
  Forall (fun ev => is_Get ev = false) l -> requests_only u l.
Proof.
  unfold requests_only. intros H.
  eapply Forall_impl; [|exact H].
  intros ev Hev u' ->. discriminate.
Qed.

Lemma request_page_loop_first_page (retry : Z) (query lang : string)
    (from_user : bool) (indices : list Z) :
  forall rj s, exists l,
    trace (snd (_request_page_loop retry indices query lang PNone rj
                  from_user s)) = trace s ++ l
    /\ requests_only (get_url query lang PNone from_user) l.
Proof.
  induction indices as [|i indices IH]; intros rj s; simpl.
  - exists [LogError (msg_no_success retry)]. split; [reflexivity|].
    apply requests_only_log. now repeat constructor.
  - destruct (attempt_events query lang PNone rj from_user s)
      as (l & Hl & Hno).
    assert (Hhere : requests_only (get_url query lang PNone from_user)
                      (Get (get_url query lang PNone from_user) :: l)).
    { constructor; [now intros u' [= <-] | now apply requests_only_log]. }
    destruct (attempt query lang PNone rj from_user s)
      as [[tw np|pos' rj'|rj'|e] s1] eqn:Hattempt; simpl in Hl.
    + simpl. eexists; split; [exact Hl | exact Hhere].
    + apply attempt_first_page_continued in Hattempt. subst pos'.
      destruct (IH rj' s1) as (l' & Hl' & Honly).
      exists ((Get (get_url query lang PNone from_user) :: l) ++ l').
      rewrite Hl', Hl, <- app_assoc. split; [reflexivity|].
      now apply Forall_app.
    + destruct (IH rj' (log (LogInfo (msg_retry (retry - (i + 1)))) s1))
        as (l' & Hl' & Honly).
      exists ((Get (get_url query lang PNone from_user) :: l)
              ++ LogInfo (msg_retry (retry - (i + 1))) :: l').
      rewrite Hl'. simpl. rewrite Hl, <- !app_assoc. simpl.
      split; [reflexivity|].
      unfold requests_only in *.
      change (Get (get_url query lang PNone from_user)
                :: l ++ LogInfo (msg_retry (retry - (i + 1))) :: l')
        with ((Get (get_url query lang PNone from_user) :: l)
                ++ LogInfo (msg_retry (retry - (i + 1))) :: l').
      apply Forall_app. split; [exact Hhere|].
      constructor; [intros u'; discriminate | exact Honly].
    + simpl. eexists; split; [exact Hl | exact Hhere].
Qed.

(** X3.  A call of [_request_page] without a cursor never turns into a
    continuation request: whatever the answers, every request it makes
    is for the first-page URL. *)
Theorem request_page_first_page_stays (query lang : string) (retry : Z)
    (from_user : bool) (s : St) :
  exists l,
    trace (snd (_request_page query lang PNone retry from_user s))
    = trace s ++ l
    /\ requests_only (get_url query lang PNone from_user) l.
Proof. apply request_page_loop_first_page. Qed.

(** X4.  Once an envelope has been decoded in a call, a later body that
    is not JSON no longer ends the call: the attempt counts as an empty
    page, and the cursor moves to the "min position" of the envelope
    decoded before, which stays in [response_json]. *)
Theorem request_page_stale_envelope (retry i : Z) (rest : list Z)
    (query lang : string) (pos : pyval) (d : list (string * pyval))
    (m : pyval) (from_user : bool) (s : St) (text : string) (w' : World) :
  is_None pos = false ->
  requests_get (get_url query lang pos from_user) (world s) = (inr text, w') ->
  json_loads text = None ->
  from_html (PStr "") = inr [] ->
  dict_get d "min_position" = Some m ->
  _request_page_loop retry (i :: rest) query lang pos (Some (PDict d))
    from_user s
  = _request_page_loop retry rest query lang m (Some (PDict d)) from_user
      (log (LogException JSONDecodeError)
         (mkSt w' (trace s ++ [Get (get_url query lang pos from_user)]))).
Proof.
  intros Hpos Hget Hjson Hhtml Hmin. simpl.
  unfold attempt. rewrite (fetch_returns _ _ _ _ Hget).
  unfold unwrap. rewrite Hpos, Hjson. unfold parse. rewrite Hhtml.
  rewrite (dict_get_truthy _ _ _ Hmin). unfold subscript. now rewrite Hmin.
Qed.

(** X5.  A cursor that is not [None] but counts as false (the empty
    string, zero) makes [_request_page] ask for the first-page URL and
    read the answer as a JSON envelope: an HTML first page then ends the
    call with [UnboundLocalError] on the first attempt. *)
Theorem request_page_false_cursor (query lang : string) (pos : pyval)
    (retry : Z) (from_user : bool) (s : St) (text : string) (w' : World) :
  is_None pos = false ->
  truthy pos = false ->
  1 <= retry ->
  requests_get (get_url query lang PNone from_user) (world s)
    = (inr text, w') ->
  json_loads text = None ->
  from_html (PStr "") = inr [] ->
  _request_page query lang pos retry from_user s
  = (inl (UnboundLocalError "response_json"),
     log (LogException JSONDecodeError)
       (mkSt w' (trace s ++ [Get (get_url query lang PNone from_user)]))).
Proof.
  intros Hnone Hfalse Hretry Hget Hjson Hhtml.
  assert (Hurl : get_url query lang pos from_user
                 = get_url query lang PNone from_user).
  { unfold get_url, get_user_url, get_search_url. now rewrite Hfalse. }
  destruct (py_range_first retry Hretry) as [rest Hrange].
  unfold _request_page. rewrite Hrange. simpl.
  unfold attempt. rewrite Hurl, (fetch_returns _ _ _ _ Hget).
  unfold unwrap. rewrite Hnone, Hjson. unfold parse. now rewrite Hhtml.
Qed.

End RequestPage.

(** The first page of the archive comes back on the first attempt, with
    the identifier of its last record. *)
Lemma request_page_result_shape_witness :
  ([Example.mk_tweet "30" 300; Example.mk_tweet "20" 200] <> []
   /\ PStr "20"
      = @cursor_after (Example.serve Example.archive) PNone
          [Example.mk_tweet "30" 300; Example.mk_tweet "20" 200])
  \/ ([Example.mk_tweet "30" 300; Example.mk_tweet "20" 200] = []
      /\ PStr "20" = PNone
      /\ @count_Get (Example.serve Example.archive)
           (@mkSt (Example.serve Example.archive) tt
              [Get (SEARCH_INIT_URL "rocq" "")])
         = (@count_Get (Example.serve Example.archive)
              (Example.start Example.archive) + Z.to_nat 10)%nat
      /\ exists l,
          [Get (SEARCH_INIT_URL "rocq" "")]
          = l ++ [LogError (msg_no_success 10)]).
Proof.
  apply (@request_page_result_shape (Example.serve Example.archive)
           "rocq" "" PNone 10 false (Example.start Example.archive)
           (@mkSt (Example.serve Example.archive) tt
              [Get (SEARCH_INIT_URL "rocq" "")])
           [Example.mk_tweet "30" 300; Example.mk_tweet "20" 200]
           (PStr "20")).
  vm_compute. reflexivity.
Defined.

(** After the empty envelope met at cursor 20, the text met at cursor 10
    is counted as an empty page and the cursor stays at 10. *)
Lemma request_page_stale_envelope_witness :
  @_request_page_loop (Example.serve Example.decaying) 3 [1; 2] "rocq" ""
    (PStr "10") (Some (Example.envelope "" "10")) false
    (Example.start Example.decaying)
  = @_request_page_loop (Example.serve Example.decaying) 3 [2] "rocq" ""
      (PStr "10") (Some (Example.envelope "" "10")) false
      (@mkSt (Example.serve Example.decaying) tt
         [Get (SEARCH_RELOAD_URL (PStr "10") "rocq" "");
          LogException JSONDecodeError]).
Proof.
  apply (@request_page_stale_envelope (Example.serve Example.decaying)
           3 1 [2] "rocq" "" (PStr "10")
           [("items_html"%string, PStr ""); ("min_position"%string, PStr "10")]
           (PStr "10") false (Example.start Example.decaying)
           "<html>"%string tt); reflexivity.
Defined.

(** The empty string as cursor. *)
Lemma request_page_false_cursor_witness :
  @_request_page (Example.serve Example.garbled) "rocq" "" (PStr "") 10 false
    (Example.start Example.garbled)
  = (inl (UnboundLocalError "response_json"),
     @mkSt (Example.serve Example.garbled) tt
       [Get (SEARCH_INIT_URL "rocq" ""); LogException JSONDecodeError]).
Proof.
  apply (@request_page_false_cursor (Example.serve Example.garbled)
           "rocq" "" (PStr "") 10 false (Example.start Example.garbled)
           "<html>"%string tt); try reflexivity.
  lia.
Defined.

(** ** The profile fetch *)

Section Profile.
Context {U : Upstream}.

Lemma request_user_loop_down (retry : Z) (u : url) :
  (forall u w, exists e w',
      requests_get u w = (inl e, w') /\ is_RequestException e = true) ->
  forall indices s, exists s' es,
    _request_user_loop retry indices u s = (inr None, s')
    /\ List.length es = List.length indices
    /\ trace s' =
       trace s ++ flat_map (failed_attempt u retry) (combine indices es)
               ++ [LogError (msg_no_success_user retry)].
Proof.
  intros Hdown indices.
  induction indices as [|i indices IH]; intros s.
  - exists (log (LogError (msg_no_success_user retry)) s), [].
    now repeat split.
  - destruct (Hdown u (world s)) as (e & w' & Hget & He).
    simpl. rewrite (fetch_raises _ _ _ _ Hget), He.
    destruct (IH (log (LogInfo (msg_retry (retry - (i + 1))))
                    (log (LogException e) (mkSt w' (trace s ++ [Get u])))))
      as (s' & es & Hrun & Hlen & Htrace).
    exists s', (e :: es). repeat split.
    + exact Hrun.
    + simpl; now rewrite Hlen.
    + rewrite Htrace. simpl. rewrite <- !app_assoc. reflexivity.
Qed.

(** X6.  When every fetch raises a transport failure, [query_user]
    returns [None] after ten requests for the profile page: each failure
    is logged with the retry countdown, then the error naming the ten
    attempts, then ["failure"]. *)
Theorem query_user_transport_failures (user : string) (s : St) :
  (forall u w, exists e w',
      requests_get u w = (inl e, w') /\ is_RequestException e = true) ->
  exists s' es,
    query_user user s = (None, s')
    /\ List.length es = 10%nat
    /\ trace s' =
       trace s ++ [LogInfo (msg_querying_profile user)]
       ++ flat_map (failed_attempt (USER_INIT_URL user) 10)
                   (combine (py_range 10) es)
       ++ [LogError (msg_no_success_user 10); LogInfo msg_failure].
Proof.
  intros Hdown.
  destruct (request_user_loop_down 10 (USER_INIT_URL user) Hdown
              (py_range 10) (log (LogInfo (msg_querying_profile user)) s))
    as (s1 & es & Hrun & Hlen & Htrace).
  exists (log (LogInfo msg_failure) s1), es.
  unfold query_user, _request_user.
  change (get_user_url user PNone) with (USER_INIT_URL user).
  rewrite Hrun. repeat split.
  - exact Hlen.
  - unfold log at 1. cbn [trace]. rewrite Htrace.
    unfold log. cbn [trace]. rewrite <- !app_assoc. reflexivity.
Qed.

(** X7.  The first answer that the transport delivers ends the profile
    fetch, readable or not: when the parser returns [info], [query_user]
    returns it after one request and logs ["success"] or, for [None],
    ["failure"]; when the parser raises anything but a transport
    failure, [query_user] returns [None] and logs the exception. *)
Theorem query_user_first_answer (user : string) (s : St) (text : string)
    (w' : World) :
  requests_get (USER_INIT_URL user) (world s) = (inr text, w') ->
  let s1 := mkSt w' (trace s ++ [LogInfo (msg_querying_profile user);
                                 Get (USER_INIT_URL user)]) in
  (forall info,
      user_from_html (py_or (PStr text) (PStr "")) = inr info ->
      query_user user s
      = (info, log (LogInfo (match info with
                             | Some _ => msg_success
                             | None => msg_failure
                             end)) s1))
  /\
  (forall e,
      user_from_html (py_or (PStr text) (PStr "")) = inl e ->
      is_RequestException e = false ->
      query_user user s = (None, except_all e s1)).
Proof.
  intros Hget s1.
  assert (Hfetch : fetch (USER_INIT_URL user)
                     (log (LogInfo (msg_querying_profile user)) s)
                   = (inr text, s1)).
  { unfold fetch, log. cbn [world trace]. rewrite Hget.
    unfold s1. now rewrite <- app_assoc. }
  split.
  - intros info Hinfo. unfold query_user, _request_user.
    change (get_user_url user PNone) with (USER_INIT_URL user).
    change (py_range 10) with (0 :: map Z.of_nat (seq 1 9)).
    cbn [_request_user_loop]. now rewrite Hfetch, Hinfo.
  - intros e He Hclass. unfold query_user, _request_user.
    change (get_user_url user PNone) with (USER_INIT_URL user).
    change (py_range 10) with (0 :: map Z.of_nat (seq 1 9)).
    cbn [_request_user_loop]. now rewrite Hfetch, He, Hclass.
Qed.

End Profile.

(** No network: ten attempts, then [None]. *)
Lemma query_user_transport_failures_witness :
  exists s',
    @query_user (Example.serve Example.down) "rocq"
      (Example.start Example.down) = (None, s')
    /\ @count_Get (Example.serve Example.down) s' = 10%nat.
Proof.
  destruct (@query_user_transport_failures (Example.serve Example.down)
              "rocq" (Example.start Example.down))
    as (s' & es & Hrun & _).
  - intros u w. exists RequestException, w. split; reflexivity.
  - exists s'. split; [exact Hrun|].
    vm_compute in Hrun. injection Hrun as <-. reflexivity.
Defined.

(** A profile page the parser cannot read is not asked for again. *)
Lemma query_user_first_answer_witness :
  @query_user (Example.serve Example.idle) "rocq" (Example.start Example.idle)
  = (None,
     @mkSt (Example.serve Example.idle) tt
       [LogInfo (msg_querying_profile "rocq"); Get (USER_INIT_URL "rocq");
        LogInfo msg_failure]).
Proof.
  refine (proj1 (@query_user_first_answer (Example.serve Example.idle)
                   "rocq" (Example.start Example.idle) "stalled"%string tt
                   eq_refl) None eq_refl).
Defined.

(** ** The quoting of the query *)

Section Quoting.

Lemma contains_char_append (c : ascii) (s1 s2 : string) :
  contains_char c (s1 ++ s2)%string
  = contains_char c s1 || contains_char c s2.
Proof.
  induction s1 as [|a s1 IH]; simpl; [reflexivity|].
  now rewrite IH, orb_assoc.
Qed.

Lemma replace_removes (c : ascii) (by_ s : string) :
  contains_char c by_ = false -> contains_char c (replace c by_ s) = false.
Proof.
  intros Hby. induction s as [|a s IH]; simpl; [reflexivity|].
  destruct (Ascii.eqb a c) eqn:Hac.
  - now rewrite contains_char_append, Hby, IH.
  - simpl. now rewrite Hac, IH.
Qed.

Lemma replace_keeps_absent (c c' : ascii) (by_ s : string) :
  contains_char c s = false -> contains_char c by_ = false ->
  contains_char c (replace c' by_ s) = false.
Proof.
  intros Hs Hby. induction s as [|a s IH]; simpl in *; [reflexivity|].
  apply orb_false_iff in Hs as [Ha Hs].
  destruct (Ascii.eqb a c').
  - now rewrite contains_char_append, Hby, IH.
  - simpl. now rewrite Ha, IH.
Qed.

Lemma replace_absent (c : ascii) (by_ s : string) :
  contains_char c s = false -> replace c by_ s = s.
Proof.
  induction s as [|a s IH]; simpl; [reflexivity|].
  intros H. apply orb_false_iff in H as [Ha Hs].
  now rewrite Ha, IH.
Qed.

(** X8.  The quoted query holds no space, no ['#'] and no [':'], and
    quoting it again changes nothing. *)
Theorem quote_query_clean (query : string) :
  contains_char " " (quote_query query) = false
  /\ contains_char "#" (quote_query query) = false
  /\ contains_char ":" (quote_query query) = false
  /\ quote_query (quote_query query) = quote_query query.
Proof.
  assert (Hspace : contains_char " " (quote_query query) = false).
  { unfold quote_query.
    do 2 (apply replace_keeps_absent; [|reflexivity]).
    now apply replace_removes. }
  assert (Hhash : contains_char "#" (quote_query query) = false).
  { unfold quote_query.
    apply replace_keeps_absent; [|reflexivity].
    now apply replace_removes. }
  assert (Hcolon : contains_char ":" (quote_query query) = false).
  { unfold quote_query. now apply replace_removes. }
  repeat split; auto.
  unfold quote_query at 1.
  rewrite (replace_absent " " _ _ Hspace), (replace_absent "#" _ _ Hhash).
  now apply replace_absent.
Qed.

End Quoting.

(** ** More on the two paginators *)

Section Paginators.
Context {U : Upstream}.

Lemma limit_reached_zero (n : Z) :
  limit_reached (Some 0) n = limit_reached None n.
Proof. reflexivity. Qed.

Lemma query_tweets_loop_limit_zero (query lang : string) (fuel : nat) :
  forall pos num s,
    query_tweets_loop fuel query lang pos (Some 0) num s
    = query_tweets_loop fuel query lang pos None num s.
Proof.
  induction fuel as [|fuel IH]; intros pos num s; [reflexivity|].
  cbn [query_tweets_loop].
  destruct (_request_page query lang pos 10 false s)
    as [[e|[new_tweets new_pos]] s1]; [reflexivity|].
  destruct (len new_tweets =? 0); [reflexivity|].
  rewrite limit_reached_zero. cbn [limit_reached]. now rewrite IH.
Qed.

Lemma query_user_tweets_loop_limit_zero (user : string) (fuel : nat) :
  forall pos tweets s,
    query_user_tweets_loop fuel user (Some 0) pos tweets s
    = query_user_tweets_loop fuel user None pos tweets s.
Proof.
  induction fuel as [|fuel IH]; intros pos tweets s; [reflexivity|].
  cbn [query_user_tweets_loop].
  destruct (_request_page user "" pos 10 true s)
    as [[e|[new_tweets new_pos]] s1]; [reflexivity|].
  destruct (reversed pos new_pos) as [e|[|]]; try reflexivity.
  rewrite limit_reached_zero. cbn [limit_reached]. apply IH.
Qed.

(** X9.  A limit of zero is no limit: both paginators run exactly as
    with [limit=None], whatever the upstream. *)
Theorem limit_zero_is_no_limit (fuel : nat) (query lang user : string)
    (pos : pyval) (s : St) :
  query_tweets fuel query lang pos (Some 0) s
  = query_tweets fuel query lang pos None s
  /\ query_user_tweets fuel user (Some 0) s
     = query_user_tweets fuel user None s.
Proof.
  split.
  - apply query_tweets_loop_limit_zero.
  - apply query_user_tweets_loop_limit_zero.
Qed.

Lemma limit_reached_negative (l n : Z) :
  l < 0 -> 0 <= n -> limit_reached (Some l) n = true.
Proof.
  intros Hl Hn. unfold limit_reached. apply andb_true_iff. split.
  - apply negb_true_iff, Z.eqb_neq. lia.
  - rewrite Z.geb_leb. apply Z.leb_le. lia.
Qed.

(** X10.  With a negative limit both paginators stop after their first
    call of [_request_page]: the timeline returns that page, empty or
    not, and the search yields it. *)
Theorem negative_limit_stops_after_first_page (fuel : nat) (l : Z)
    (new_tweets : list Tweet) (new_pos : pyval) :
  l < 0 ->
  (forall user s s1,
      _request_page user "" PNone 10 true
        (log (LogInfo (msg_querying_user_tweets user)) s)
        = (inr (new_tweets, new_pos), s1) ->
      query_user_tweets (S fuel) user (Some l) s
      = Some (new_tweets,
              log (LogInfo (msg_got_from (len new_tweets) user)) s1))
  /\
  (forall query lang pos s s1,
      _request_page (quote_query query) lang pos 10 false
        (log (LogInfo (msg_querying query)) s)
        = (inr (new_tweets, new_pos), s1) ->
      query_tweets (S fuel) query lang pos (Some l) s
      = (map (fun t => (t, pos)) new_tweets,
         Some (log (LogInfo (msg_got_for (len new_tweets)
                               (quote_query query))) s1))).
Proof.
  intros Hl. split.
  - intros user s s1 Hpage. unfold query_user_tweets.
    cbn [query_user_tweets_loop]. rewrite Hpage.
    cbn [reversed truthy app].
    now rewrite (limit_reached_negative l _ Hl (len_nonneg new_tweets)).
  - intros query lang pos s s1 Hpage. unfold query_tweets.
    cbn [query_tweets_loop]. rewrite Hpage.
    destruct new_tweets as [|t ts]; [reflexivity|].
    rewrite len_cons_nonzero.
    rewrite limit_reached_negative
      by (try assumption; pose proof (len_nonneg (t :: ts)); lia).
    reflexivity.
Qed.




Lemma request_page_propagates (query lang : string) (pos : pyval)
    (from_user : bool) (s : St) (e : exn) (w' : World) :
  requests_get (get_url query lang pos from_user) (world s) = (inl e, w') ->
  is_RequestException e = false ->
  is_JSONDecodeError e = false ->
  _request_page query lang pos 10 from_user s
  = (inl e, mkSt w' (trace s ++ [Get (get_url query lang pos from_user)])).
Proof.
  intros Hget H1 H2. unfold _request_page.
  change (py_range 10) with (0 :: map Z.of_nat (seq 1 9)).
  cbn [_request_page_loop]. unfold attempt.
  rewrite (fetch_raises _ _ _ _ Hget). unfold outer_except.
  now rewrite H1, H2.
Qed.

(** X13.  When, after [k] pages, the fetch raises an exception that is
    not a transport failure (a user interrupt, for one), [query_tweets]
    still finishes: it has yielded the [k] pages, makes no further
    request, logs the interruption notice or the exception, and then the
    closing count. *)
Theorem query_tweets_fetch_exception (k : nat) (query lang : string)
    (pos : pyval) (limit : option Z) (s : St)
    (ps : list (pyval * list Tweet)) (pos_k : pyval) (s_k : St) (e : exn)
    (w' : World) :
  walk k (quote_query query) lang pos (log (LogInfo (msg_querying query)) s)
    = Some (ps, (pos_k, s_k)) ->
  never_reached limit 0 ps = true ->
  requests_get (get_url (quote_query query) lang pos_k false) (world s_k)
    = (inl e, w') ->
  is_RequestException e = false ->
  is_JSONDecodeError e = false ->
  forall fuel, (k < fuel)%nat ->
    query_tweets fuel query lang pos limit s
    = (paired ps,
       Some (log (LogInfo (msg_got_for (len (records ps)) (quote_query query)))
               (except_all e
                  (mkSt w'
                     (trace s_k
                        ++ [Get (get_url (quote_query query) lang pos_k
                                   false)]))))).
Proof.
  intros Hwalk Hlimit Hget H1 H2 fuel Hfuel.
  unfold query_tweets.
  replace fuel with (k + S (fuel - S k))%nat by lia.
  rewrite (query_tweets_loop_walk _ _ _ _ _ _ _ _ _ _ Hwalk Hlimit).
  cbn [query_tweets_loop].
  rewrite (request_page_propagates _ _ _ _ _ _ _ Hget H1 H2).
  cbn [fst snd]. now rewrite app_nil_r.
Qed.


End Paginators.

(** A negative limit on the idle timeline and on the archive. *)
Lemma negative_limit_stops_after_first_page_witness :
  (exists s',
      @query_user_tweets (Example.serve Example.idle) 1 "rocq" (Some (-1))
        (Example.start Example.idle) = Some ([], s'))
  /\
  (exists s',
      @query_tweets (Example.serve Example.archive) 1 "rocq" "" PNone
        (Some (-1)) (Example.start Example.archive)
      = ([(Example.mk_tweet "30" 300, PNone);
          (Example.mk_tweet "20" 200, PNone)], Some s')).
Proof.
  split.
  - eexists.
    refine (proj1 (@negative_limit_stops_after_first_page
                     (Example.serve Example.idle) 0 (-1) [] PNone _)
              "rocq"%string (Example.start Example.idle) _ _).
    + lia.
    + vm_compute. reflexivity.
  - eexists.
    refine (proj2 (@negative_limit_stops_after_first_page
                     (Example.serve Example.archive) 0 (-1)
                     [Example.mk_tweet "30" 300; Example.mk_tweet "20" 200]
                     (PStr "20") _)
              "rocq"%string ""%string PNone (Example.start Example.archive)
              _ _).
    + lia.
    + vm_compute. reflexivity.
Defined.


(** The user interrupts the request for the second page. *)
Lemma query_tweets_fetch_exception_witness :
  @query_tweets (Example.serve Example.interrupted) 5 "rocq" "" PNone None
    (Example.start Example.interrupted)
  = ([(Example.mk_tweet "30" 300, PNone);
      (Example.mk_tweet "20" 200, PNone)],
     Some (@mkSt (Example.serve Example.interrupted) tt
             [LogInfo (msg_querying "rocq");
              Get (SEARCH_INIT_URL "rocq" "");
              Get (SEARCH_RELOAD_URL (PStr "20") "rocq" "");
              LogInfo msg_interrupted;
              LogInfo (msg_got_for 2 "rocq")])).
Proof.
  apply (@query_tweets_fetch_exception (Example.serve Example.interrupted)
           1 "rocq" "" PNone None (Example.start Example.interrupted)
           [(PNone, [Example.mk_tweet "30" 300; Example.mk_tweet "20" 200])]
           (PStr "20")
           (@mkSt (Example.serve Example.interrupted) tt
              [LogInfo (msg_querying "rocq");
               Get (SEARCH_INIT_URL "rocq" "")])
           KeyboardInterrupt tt); try reflexivity.
  lia.
Defined.


(** ** The parallel search *)

Section Parallel.
Context {U : Upstream}.

(** X15.  For a positive limit and a pool of at least one worker, the
    limit per worker is at least one, and the workers together reach the
    limit when each reaches its own: [poolsize] times the limit per
    worker exceeds [limit], by at most [poolsize]. *)
Theorem limit_per_pool_covers (limit poolsize : Z) :
  0 < limit ->
  1 <= poolsize ->
  exists q,
    limit_per_pool (Some limit) poolsize = inr (Some q)
    /\ 1 <= q
    /\ limit < poolsize * q <= limit + poolsize.
Proof.
  intros Hl Hp. exists (limit / poolsize + 1).
  unfold limit_per_pool.
  replace (limit =? 0) with false by (symmetry; apply Z.eqb_neq; lia).
  replace (poolsize =? 0) with false by (symmetry; apply Z.eqb_neq; lia).
  split; [reflexivity|].
  pose proof (Z.div_mod limit poolsize ltac:(lia)) as Hdm.
  pose proof (Z.mod_pos_bound limit poolsize ltac:(lia)) as Hb.
  assert (0 <= limit / poolsize) by (apply Z.div_pos; lia).
  split; [lia | nia].
Qed.

Lemma extend_all_concat (results : list (list Tweet)) :
  forall tweets s,
    fst (extend_all tweets results s) = tweets ++ List.concat results.
Proof.
  induction results as [|new_tweets results IH]; intros tweets s; simpl.
  - now rewrite app_nil_r.
  - now rewrite IH, <- app_assoc.
Qed.

Lemma Permutation_concat {A : Type} (l l' : list (list A)) :
  Permutation l l' -> Permutation (List.concat l) (List.concat l').
Proof.
  induction 1 as [|x l l' _ IH|x y l|l l' l'' _ IH1 _ IH2]; simpl.
  - constructor.
  - now apply Permutation_app_head.
  - rewrite !app_assoc. apply Permutation_app_tail, Permutation_app_comm.
  - now transitivity (List.concat l').
Qed.

(** X16.  The merge of the workers' results is their concatenation in
    the order they complete, after what was held; completing in another
    order gives the same records, in another order. *)
Theorem pool_merge_unordered (tweets : list Tweet)
    (results results' : list (list Tweet)) (s s' : St) :
  Permutation results results' ->
  fst (extend_all tweets results s) = tweets ++ List.concat results
  /\ Permutation (fst (extend_all tweets results s))
       (fst (extend_all tweets results' s')).
Proof.
  intros Hperm. rewrite !extend_all_concat. split; [reflexivity|].
  now apply Permutation_app_head, Permutation_concat.
Qed.

(** X17.  On a range of at least one day with a pool of at least one
    worker, [query_tweets_parallel] starts a pool of
    [n = min poolsize no_days] workers for as many sub-queries and never
    fails before: it returns the concatenation of the results the pool
    delivers, also when a user interrupt ends the iteration early; any
    other exception raised by the iteration reaches the caller. *)
Theorem query_tweets_parallel_valid_range (query lang : string)
    (limit : option Z) (poolsize begindate enddate : Z) (s : St) :
  begindate < enddate ->
  1 <= poolsize ->
  let n := Z.min poolsize (enddate - begindate) in
  exists ranges limit',
    dateranges poolsize begindate enddate = inr ranges
    /\ limit_per_pool limit n = inr limit'
    /\ List.length (sub_queries query ranges) = Z.to_nat n
    /\ let '(results, interrupted, _) :=
         imap_unordered n lang limit' (sub_queries query ranges) (world s) in
       fst (query_tweets_parallel query lang limit poolsize begindate
              enddate s)
       = match interrupted with
         | None => inr (List.concat results)
         | Some e =>
             if is_KeyboardInterrupt e then inr (List.concat results)
             else inl e
         end.
Proof.
  intros Hdates Hpool n.
  assert (Hn : 1 <= n) by (unfold n; lia).
  assert (Hlimit : exists limit', limit_per_pool limit n = inr limit').
  { unfold limit_per_pool. destruct limit as [l|]; [|now eexists].
    destruct (negb (l =? 0)); [|now eexists].
    replace (n =? 0) with false by (symmetry; apply Z.eqb_neq; lia).
    now eexists. }
  destruct Hlimit as [limit' Hlimit'].
  eexists. exists limit'.
  split; [apply dateranges_closed_form; assumption|].
  split; [exact Hlimit'|].
  fold n. split.
  { unfold sub_queries.
    rewrite length_map,
      (date_pairs_closed_form
         (fun i => begindate + i * (enddate - begindate) / n) n)
      by lia.
    rewrite length_map. apply length_py_range. }
  unfold query_tweets_parallel.
  rewrite (dateranges_closed_form _ _ _ Hdates Hpool), clamp_poolsize_min.
  fold n. rewrite Hlimit'.
  unfold run_pool, Pool.
  replace (n <? 1) with false by (symmetry; apply Z.ltb_ge; lia).
  cbn [world log].
  destruct (imap_unordered n lang limit'
              (sub_queries query
                 (map (fun i => begindate + i * (enddate - begindate) / n)
                    (py_range (n + 1))))
              (world s)) as [[results interrupted] w].
  pose proof (extend_all_concat results []
                (mkSt w (trace s ++ [LogInfo
                   (msg_queries
                      (sub_queries query
                         (map (fun i =>
                                 begindate + i * (enddate - begindate) / n)
                            (py_range (n + 1)))))]))) as Hmerge.
  cbn [trace].
  destruct (extend_all [] results _) as [tweets s1].
  cbn [fst app] in Hmerge. subst tweets.
  unfold finally_close.
  destruct interrupted as [e|]; [|reflexivity].
  now destruct (is_KeyboardInterrupt e).
Qed.

(** X18.  On an empty or inverted range ([enddate <= begindate]) with a
    pool of at least one worker, [query_tweets_parallel] returns no
    result: it raises before any worker is started and before anything
    is logged. *)
Theorem query_tweets_parallel_empty_or_inverted_range (query lang : string)
    (limit : option Z) (poolsize begindate enddate : Z) (s : St) :
  enddate <= begindate ->
  1 <= poolsize ->
  exists e,
    query_tweets_parallel query lang limit poolsize begindate enddate s
    = (inl e, s).
Proof.
  intros Hdates Hpool.
  unfold query_tweets_parallel, dateranges.
  rewrite clamp_poolsize_min.
  set (no_days := enddate - begindate).
  replace (Z.min poolsize no_days) with no_days by (unfold no_days; lia).
  unfold linspace.
  destruct (no_days + 1 <? 0) eqn:Hneg; [now eexists|].
  apply Z.ltb_ge in Hneg.
  assert (Hcase : no_days = 0 \/ no_days = -1) by (unfold no_days in *; lia).
  destruct Hcase as [-> | ->]; simpl.
  - destruct limit as [l|]; simpl.
    + destruct (l =? 0); simpl; now eexists.
    + now eexists.
  - destruct limit as [l|]; simpl.
    + destruct (l =? 0); simpl; now eexists.
    + now eexists.
Qed.

End Parallel.

(** Twenty-five records asked of five workers: six each. *)
Lemma limit_per_pool_covers_witness :
  limit_per_pool (Some 25) 5 = inr (Some 6) /\ 25 < 5 * 6 <= 25 + 5.
Proof.
  destruct (limit_per_pool_covers 25 5) as (q & Hq & _ & Hsum); [lia..|].
  vm_compute in Hq. injection Hq as <-.
  split; [reflexivity | exact Hsum].
Defined.

(** Two workers finishing in either order. *)
Lemma pool_merge_unordered_witness :
  Permutation
    (fst (@extend_all (Example.serve Example.idle) []
            [[Example.mk_tweet "30" 300]; [Example.mk_tweet "15" 150]]
            (Example.start Example.idle)))
    (fst (@extend_all (Example.serve Example.idle) []
            [[Example.mk_tweet "15" 150]; [Example.mk_tweet "30" 300]]
            (Example.start Example.idle))).
Proof.
  apply (@pool_merge_unordered (Example.serve Example.idle) []
           [[Example.mk_tweet "30" 300]; [Example.mk_tweet "15" 150]]
           [[Example.mk_tweet "15" 150]; [Example.mk_tweet "30" 300]]).
  apply perm_swap.
Defined.

(** Ten days, five workers, no result delivered by the test pool. *)
Lemma query_tweets_parallel_valid_range_witness :
  fst (@query_tweets_parallel (Example.serve Example.idle) "rocq" ""
         (Some 25) 5 737425 737435 (Example.start Example.idle))
  = inr [].
Proof.
  destruct (@query_tweets_parallel_valid_range (Example.serve Example.idle)
              "rocq" "" (Some 25) 5 737425 737435
              (Example.start Example.idle))
    as (ranges & limit' & _ & _ & _ & Hrun); [lia..|].
  exact Hrun.
Defined.

(** The end date a week before the begin date. *)
Lemma query_tweets_parallel_empty_or_inverted_range_witness :
  exists e,
    @query_tweets_parallel (Example.serve Example.idle) "rocq" "" None 20
      737435 737428 (Example.start Example.idle)
    = (inl e, Example.start Example.idle).
Proof.
  apply (@query_tweets_parallel_empty_or_inverted_range
           (Example.serve Example.idle)); lia.
Defined.

(** ** The cost of the profile fetch *)

Section ProfileCost.
Context {U : Upstream}.

Lemma count_Get_fetch (u : url) (s : St) :
  count_Get (snd (fetch u s)) = S (count_Get s).
Proof.
  unfold fetch. destruct (requests_get u (world s)) as [r w].
  unfold count_Get. simpl. rewrite filter_app, length_app. simpl. lia.
Qed.

Lemma request_user_loop_bound (retry : Z) (u : url) (indices : list Z) :
  forall s,
    (count_Get (snd (_request_user_loop retry indices u s))
     <= count_Get s + List.length indices)%nat.
Proof.
  induction indices as [|i indices IH]; intros s; simpl.
  - rewrite count_Get_log by reflexivity. lia.
  - pose proof (count_Get_fetch u s) as Hone.
    destruct (fetch u s) as [[e|text] s1]; simpl in Hone.
    + destruct (is_RequestException e); simpl; [|lia].
      specialize (IH (log (LogInfo (msg_retry (retry - (i + 1))))
                        (log (LogException e) s1))).
      rewrite !count_Get_log in IH by reflexivity. lia.
    + destruct (user_from_html (py_or (PStr text) (PStr "")))
        as [e|user_info]; simpl; [|lia].
      destruct (is_RequestException e); simpl; [|lia].
      specialize (IH (log (LogInfo (msg_retry (retry - (i + 1))))
                        (log (LogException e) s1))).
      rewrite !count_Get_log in IH by reflexivity. lia.
Qed.

Lemma count_Get_except_all (e : exn) (s : St) :
  count_Get (except_all e s) = count_Get s.
Proof.
  unfold except_all.
  destruct (is_KeyboardInterrupt e); now apply count_Get_log.
Qed.

(** X19.  Whatever the upstream answers, [query_user] makes at most ten
    requests. *)
Theorem query_user_request_bound (user : string) (s : St) :
  (count_Get (snd (query_user user s)) <= count_Get s + 10)%nat.
Proof.
  unfold query_user, _request_user.
  pose proof (request_user_loop_bound 10 (get_user_url user PNone)
                (py_range 10) (log (LogInfo (msg_querying_profile user)) s))
    as H.
  rewrite count_Get_log in H by reflexivity.
  change (List.length (py_range 10)) with 10%nat in H.
  destruct (_request_user_loop 10 (py_range 10) (get_user_url user PNone)
              (log (LogInfo (msg_querying_profile user)) s))
    as [[e|user_info] s1]; simpl in *.
  - now rewrite count_Get_except_all.
  - now rewrite count_Get_log by reflexivity.
Qed.

End ProfileCost.
